(** * VidZen: the one-time-password service

    A shallow embedding of [server/otp-service.ts], of the notifier it calls
    ([server/sendgrid-service.ts], [sendSms]) and of the code generator
    ([generateOTP] in the shared [lib/utils]), followed by the properties
    the specification states about them.

    Conventions.
    - JavaScript numbers are IEEE-754 binary64 values: the [spec_float] of
      the Standard Library, with its multiplication and addition at
      precision 53 and maximal exponent 1024 (round to nearest, ties to
      even).
    - [Date.now()] and [Math.random()] read the environment: every operation
      takes the value they return during the call as an argument.  Timestamps
      are integer milliseconds, far below 2^53, so [Date.now() + 5*60*1000]
      is exact and is computed in [Z].
    - The [Map] of the service is a [gmap string OTPRecord].  Calls of its
      mutating methods ([set], [delete]) and of the console are recorded in
      the list of [event]s an operation returns next to its result.
    - [verifyOTP] contains no [await]; [sendOTP] performs all of its state
      changes before its only [await].  Both are modelled as atomic
      transitions of the service state. *)

From Stdlib Require Import ZArith Lia Ascii String List Bool.
From Stdlib Require Import SpecFloat.
From stdpp Require Import base option gmap strings list fin_maps.

Local Open Scope string_scope.
Local Open Scope Z_scope.

(** ** JavaScript numbers *)

(** [x * y] and [x + y] on binary64 values. *)
Definition js_mul (x y : spec_float) : spec_float := SFmul 53 1024 x y.
Definition js_add (x y : spec_float) : spec_float := SFadd 53 1024 x y.

(** An integer literal such as [100000]. *)
Definition js_number (n : Z) : spec_float := binary_normalize 53 1024 n 0 false.

(** What [Math.random()] may return: a binary64 value [r] with
    [0 <= r < 1]. *)
Definition is_random (r : spec_float) : Prop :=
  valid_binary 53 1024 r = true /\
  SFleb (S754_zero false) r = true /\
  SFltb r (SFone 53 1024) = true.

(** [Math.floor(x)] for a finite [x]: an integer, returned as such.  [NaN]
    and the infinities, which [Math.floor] hands back, do not arise from
    the arithmetic of this program ([generate_range]); they are sent to 0. *)
Definition Math_floor (x : spec_float) : Z :=
  match x with
  | S754_finite s m e => Z.shiftl (cond_Zopp s (Zpos m)) e
  | _ => 0
  end.

(** [n.toString()] for an integer [0 <= n < 10^21]: the decimal digits. *)
Definition digit_char (d : Z) : ascii := ascii_of_N (48 + Z.to_N d).

Fixpoint digits_of (fuel : nat) (n : Z) (acc : string) : string :=
  match fuel with
  | O => acc
  | S fuel' =>
      let acc' := String (digit_char (n mod 10)) acc in
      if n <? 10 then acc' else digits_of fuel' (n / 10) acc'
  end.

Definition Number_toString (n : Z) : string :=
  digits_of (S (Z.to_nat (Z.log2 n))) n "".

(** Reading a string of decimal digits back. *)
Definition is_digit (c : ascii) : bool :=
  let n := N_of_ascii c in ((48 <=? n) && (n <=? 57))%N.

Definition all_digits (s : string) : bool :=
  forallb is_digit (list_ascii_of_string s).

Definition decimal_value (s : string) : Z :=
  fold_left (fun v c => 10 * v + (Z.of_N (N_of_ascii c) - 48))
            (list_ascii_of_string s) 0.

(** ** [lib/utils]: the code generator *)

(** [Math.floor(100000 + Math.random() * 900000).toString()], where [rand]
    is the value [Math.random()] returns. *)
Definition generateOTP (rand : spec_float) : string :=
  Number_toString
    (Math_floor (js_add (js_number 100000) (js_mul rand (js_number 900000)))).

(** Some values of [Math.random()]: 0.5, 0.25 and the largest double
    below 1. *)
Definition rand_half : spec_float := S754_finite false 4503599627370496 (-53).
Definition rand_quarter : spec_float := S754_finite false 4503599627370496 (-54).
Definition rand_max : spec_float := S754_finite false 9007199254740991 (-53).

(** ** Effects *)

(** A call either returns or throws; a rejected promise that is awaited
    throws at the [await]. *)
Inductive completion (A : Type) : Type :=
  | Return (a : A)
  | Throw (err : string).
Arguments Return {A} a.
Arguments Throw {A} err.

(** The argument of [mailService.send]. *)
Record MailContent := { content_type : string; content_value : string }.
Record MailData := {
  mail_to : string;
  mail_from : string;
  mail_subject : string;
  mail_content : list MailContent
}.

(** [mailService]: [null] when [SENDGRID_API_KEY] is not set or the
    initialisation failed, else a service whose [send] is outside this
    repository and may resolve or reject. *)
Definition MailService : Type := MailData -> completion unit.

Record OTPRecord := { otp : string; expiresAt : Z }.

(** What a call prints: [console.log(msg)] and [console.error(msg, err)]. *)
Inductive console_entry : Type :=
  | Log (msg : string)
  | Error (msg : string) (err : string).

(** What a method of the service does besides returning: the calls of the
    mutating methods of its private [otpStore], and console output. *)
Inductive event : Type :=
  | MapSet (key : string) (value : OTPRecord)
  | MapDelete (key : string)
  | Console (entry : console_entry).

Definition is_store_mutation (ev : event) : bool :=
  match ev with
  | MapSet _ _ | MapDelete _ => true
  | Console _ => false
  end.

Definition store_mutations (evs : list event) : list event :=
  List.filter is_store_mutation evs.

(** ** [server/sendgrid-service.ts] *)

Definition sendSms (mailService : option MailService)
    (phoneNumber message : string) : completion bool * list console_entry :=
  match mailService with
  | None =>
      (Return true,
       [Log ("[SIMULATED SMS] To: " +:+ phoneNumber +:+
                    ", Message: " +:+ message)])
  | Some send =>
      let params :=
        {| mail_to := phoneNumber +:+ "@example.com";
           mail_from := "otp@yourapplication.com";
           mail_subject := "Your OTP Code";
           mail_content :=
             [ {| content_type := "text/plain"; content_value := message |};
               {| content_type := "text/html";
                  content_value := "<strong>" +:+ message +:+ "</strong>" |} ]
        |} in
      match send params with
      | Return _ =>
          (Return true,
           [Log ("SMS (via email) sent to " +:+ phoneNumber)])
      | Throw err =>
          (Return true,
           [Error "SendGrid SMS error:" err;
            Log ("[FALLBACK SMS] To: " +:+ phoneNumber +:+
                        ", Message: " +:+ message)])
      end
  end.

(** ** [server/otp-service.ts] *)

Record OTPService := {
  otpStore : gmap string OTPRecord;
  latestOtp : option string;
  latestMobile : option string
}.

(** [new OTPService()] *)
Definition otpService : OTPService :=
  {| otpStore := ∅; latestOtp := None; latestMobile := None |}.

(** [5 * 60 * 1000] *)
Definition OTP_TTL : Z := 5 * 60 * 1000.

Definition generateUniqueOTP (now : Z) (rand : spec_float) (mobile : string)
    (this : OTPService) : string * OTPService * list event :=
  let code := generateOTP rand in
  let record := {| otp := code; expiresAt := now + OTP_TTL |} in
  (code,
   {| otpStore := <[mobile := record]> (otpStore this);
      latestOtp := Some code;
      latestMobile := Some mobile |},
   [MapSet mobile record]).

(** The notifier [sendOTP] awaits: [sendSms] in the repository, any
    behaviour in the statements about failure isolation.  It has no access
    to the private store of the service; it returns or throws, and prints. *)
Definition notifier : Type :=
  string -> string -> completion bool * list console_entry.

Definition sendOTP (notify : notifier) (now : Z) (rand : spec_float)
    (mobile : string) (this : OTPService)
    : completion unit * OTPService * list event :=
  let '(code, this', evs) := generateUniqueOTP now rand mobile this in
  let logged :=
    Console (Log ("[OTP Service] Sent OTP " +:+ code +:+ " to mobile " +:+ mobile)) in
  let message :=
    "Your verification code is: " +:+ code +:+ ". It will expire in 5 minutes." in
  match notify mobile message with
  | (Return _, sent) =>
      (Return tt, this', (evs ++ logged :: List.map Console sent)%list)
  | (Throw err, sent) =>
      (Return tt, this',
       (evs ++ logged :: List.map Console sent ++
          [Console (Error "[OTP Service] Failed to send OTP via SMS:" err)])%list)
  end.

Definition verifyOTP (now : Z) (mobile otpToVerify : string)
    (this : OTPService) : bool * OTPService * list event :=
  match otpStore this !! mobile with
  | None => (false, this, [])
  | Some record =>
      if expiresAt record <? now then (false, this, [])
      else
        let isValid := bool_decide (otp record = otpToVerify) in
        if isValid then
          (true,
           {| otpStore := delete mobile (otpStore this);
              latestOtp := latestOtp this;
              latestMobile := latestMobile this |},
           [MapDelete mobile])
        else (false, this, [])
  end.

Definition getLatestOtpForDevelopment (this : OTPService) : option string :=
  latestOtp this.

(** ** Sequences of calls on the service object *)

Inductive call : Type :=
  | CallSendOTP (notify : notifier) (now : Z) (rand : spec_float) (mobile : string)
  | CallVerifyOTP (now : Z) (mobile otpToVerify : string).

Definition step (c : call) (this : OTPService) : OTPService :=
  match c with
  | CallSendOTP notify now rand mobile =>
      (sendOTP notify now rand mobile this).1.2
  | CallVerifyOTP now mobile candidate =>
      (verifyOTP now mobile candidate this).1.2
  end.

(** The state after the calls [cs], made in list order on [this]. *)
Definition run (cs : list call) (this : OTPService) : OTPService :=
  fold_left (fun s c => step c s) cs this.

(** The states the exported [otpService] can be in. *)
Inductive reachable : OTPService -> Prop :=
  | reachable_init : reachable otpService
  | reachable_step c s : reachable s -> reachable (step c s).

(** The code generated by the last [sendOTP] among [cs], if any. *)
Fixpoint last_generated (cs : list call) (before : option string)
    : option string :=
  match cs with
  | [] => before
  | CallSendOTP _ _ rand _ :: cs' => last_generated cs' (Some (generateOTP rand))
  | CallVerifyOTP _ _ _ :: cs' => last_generated cs' before
  end.

Definition is_verify (c : call) : bool :=
  match c with CallVerifyOTP _ _ _ => true | CallSendOTP _ _ _ _ => false end.

(** The entries of the store, as [Map.prototype.entries] lists them, and
    those among them whose key is [mobile]. *)
Definition entries (this : OTPService) : list (string * OTPRecord) :=
  map_to_list (otpStore this).

Definition records_for (mobile : string) (this : OTPService)
    : list (string * OTPRecord) :=
  filter (fun entry => entry.1 = mobile) (entries this).

(** ** [lib/utils]: [formatPhoneNumber] *)

(** [s.replace(/\D/g, '')]: [\D] is every character but the ten ASCII
    digits. *)
Fixpoint remove_non_digits (s : string) : string :=
  match s with
  | EmptyString => EmptyString
  | String c s' =>
      if is_digit c then String c (remove_non_digits s')
      else remove_non_digits s'
  end.

(** [s.slice(start, stop)] and [s.slice(start)] for [0 <= start <= stop];
    like [slice], [substring] stops at the end of the string. *)
Definition slice (start stop : nat) (s : string) : string :=
  substring start (stop - start) s.

Definition slice_from (start : nat) (s : string) : string :=
  substring start (String.length s - start) s.

Definition formatPhoneNumber (phoneNumber : string) : string :=
  match phoneNumber with
  | EmptyString => ""
  | _ =>
      let cleaned := remove_non_digits phoneNumber in
      if Nat.eqb (String.length cleaned) 10
      then slice 0 3 cleaned +:+ "-" +:+ slice 3 6 cleaned +:+ "-" +:+
           slice_from 6 cleaned
      else cleaned
  end.

(** A character [formatPhoneNumber] can put out. *)
Definition is_digit_or_dash (c : ascii) : bool :=
  is_digit c || Ascii.eqb c "-"%char.

(** ** The registration form and the development endpoint *)

(** [mobileRegex.test(val)] with [mobileRegex = /^\d{10}$/], the test of
    the form and of [insertUserSchema] and [insertOtpSchema]. *)
Definition mobileRegex_test (val : string) : bool :=
  Nat.eqb (String.length val) 10 && all_digits val.

(** The guard of the form's [verifyOtp],
    [!otpValue || otpValue.length !== 6]: the field may be undefined. *)
Definition otp_field_rejected (otpValue : option string) : bool :=
  match otpValue with
  | None => true
  | Some EmptyString => true
  | Some value => negb (Nat.eqb (String.length value) 6)
  end.

(** The response of [GET /api/development-get-latest-otp]:
    [res.status(200).json({ otp: latestOtp })]. *)
Record LatestOtpResponse := { status : Z; otp_json : option string }.

Definition development_get_latest_otp (this : OTPService) : LatestOtpResponse :=
  {| status := 200; otp_json := getLatestOtpForDevelopment this |}.

(** What the form does with that response:
    [if (data.otp) form.setValue('otp', data.otp)]. *)
Definition autofill_otp (field : option string) (data : LatestOtpResponse)
    : option string :=
  match otp_json data with
  | None | Some EmptyString => field
  | Some code => Some code
  end.

(** ** Calls, for the statements about sequences *)

Definition call_mobile (c : call) : string :=
  match c with
  | CallSendOTP _ _ _ mobile => mobile
  | CallVerifyOTP _ mobile _ => mobile
  end.

Definition sends_to (mobile : string) (c : call) : bool :=
  match c with
  | CallSendOTP _ _ _ target => bool_decide (target = mobile)
  | CallVerifyOTP _ _ _ => false
  end.

(** Every [Math.random()] of the call is a binary64 value in [0, 1). *)
Definition valid_call (c : call) : Prop :=
  match c with
  | CallSendOTP _ _ rand _ => is_random rand
  | CallVerifyOTP _ _ _ => True
  end.

(** Six ASCII digits that spell a number from 100000 to 999999. *)
Definition well_formed_code (code : string) : Prop :=
  String.length code = 6%nat /\
  all_digits code = true /\
  100000 <= decimal_value code <= 999999.

(** ** The grid of binary64 values

    Every finite binary64 value is a multiple of the least subnormal,
    2^-1074.  The proofs about [generateOTP] count values in that unit. *)

(** The value of a non-negative finite [x], in units of 2^-1074. *)
Definition SFgrid (x : spec_float) : Z :=
  match x with
  | S754_finite false m e => Zpos m * 2 ^ (e + 1074)
  | _ => 0
  end.

(** [x] is a zero, or positive and finite with its exponent on the grid. *)
Definition on_grid (x : spec_float) : Prop :=
  match x with
  | S754_zero _ => True
  | S754_finite false _ e => -1074 <= e
  | _ => False
  end.

(** Nearest integer to [n / 2^sh], ties to the even one. *)
Definition rne (n sh : Z) : Z :=
  let q := n / 2 ^ sh in
  let r := n mod 2 ^ sh in
  if 2 * r <? 2 ^ sh then q
  else if 2 ^ sh <? 2 * r then q + 1
  else if Z.even q then q else q + 1.

(** Rounding on the grid: the exact value [X] (in units of 2^-1074) goes to
    the nearest multiple of the unit in the last place of its binade, which
    is 2^(log2 X - 52) units, or 1 unit in the subnormal range. *)
Definition round_grid (X : Z) : Z :=
  let sh := Z.max (Z.log2 X - 52) 0 in rne X sh * 2 ^ sh.

(** * Properties of the code generator *)

(** ** Rounding to the nearest integer, ties to even *)

Section Rne.
Context (sh : Z) (Hsh : 0 <= sh).

Lemma rne_lower n k : k * 2 ^ sh <= n -> k <= rne n sh.
Proof.
  intros Hk. unfold rne.
  assert (0 < 2 ^ sh) as Hpos by (apply Z.pow_pos_nonneg; lia).
  pose proof (Z.div_mod n (2 ^ sh) ltac:(lia)) as Hdm.
  pose proof (Z.mod_pos_bound n (2 ^ sh) Hpos) as Hr.
  set (P := 2 ^ sh) in *. set (q := n / P) in *. set (r := n mod P) in *.
  assert (k <= q) by nia.
  repeat case_match; lia.
Qed.

Lemma rne_upper_half n k : 2 * n < (2 * k + 1) * 2 ^ sh -> rne n sh <= k.
Proof.
  intros Hk. unfold rne.
  assert (0 < 2 ^ sh) as Hpos by (apply Z.pow_pos_nonneg; lia).
  pose proof (Z.div_mod n (2 ^ sh) ltac:(lia)) as Hdm.
  pose proof (Z.mod_pos_bound n (2 ^ sh) Hpos) as Hr.
  set (P := 2 ^ sh) in *. set (q := n / P) in *. set (r := n mod P) in *.
  assert (q <= k) by nia.
  destruct (Z.ltb_spec (2 * r) P); [lia |].
  assert (q + 1 <= k) by nia.
  repeat case_match; lia.
Qed.

Lemma rne_upper n k : n <= k * 2 ^ sh -> rne n sh <= k.
Proof.
  intros Hk. apply rne_upper_half.
  assert (0 < 2 ^ sh) by (apply Z.pow_pos_nonneg; lia). nia.
Qed.

Lemma rne_exact k : rne (k * 2 ^ sh) sh = k.
Proof.
  assert (0 < 2 ^ sh) as Hpos by (apply Z.pow_pos_nonneg; lia).
  unfold rne. rewrite Z.div_mul, Z.mod_mul by lia.
  destruct (Z.ltb_spec (2 * 0) (2 ^ sh)); [done | lia].
Qed.

Lemma rne_scale n a : 0 <= a -> rne (n * 2 ^ a) (sh + a) = rne n sh.
Proof.
  intros Ha.
  assert (0 < 2 ^ sh) as Hpos by (apply Z.pow_pos_nonneg; lia).
  assert (0 < 2 ^ a) as Hposa by (apply Z.pow_pos_nonneg; lia).
  unfold rne. rewrite Z.pow_add_r by lia.
  rewrite Z.div_mul_cancel_r, Z.mul_mod_distr_r by lia.
  set (q := n / 2 ^ sh). set (r := n mod 2 ^ sh).
  destruct (Z.ltb_spec (2 * r) (2 ^ sh)),
           (Z.ltb_spec (2 * (r * 2 ^ a)) (2 ^ sh * 2 ^ a)); try nia; try done.
  destruct (Z.ltb_spec (2 ^ sh) (2 * r)),
           (Z.ltb_spec (2 ^ sh * 2 ^ a) (2 * (r * 2 ^ a))); try nia; done.
Qed.
End Rne.

(** ** The rounding of the Standard Library's specification *)

Lemma digits2_log2 p : Zpos (digits2_pos p) = Z.log2 (Zpos p) + 1.
Proof.
  assert (Hsize : forall q, digits2_pos q = Pos.size q).
  { induction q as [q IH | q IH |]; cbn; by rewrite ?IH. }
  rewrite Hsize. destruct p as [p | p |]; cbn; lia.
Qed.

Lemma iter_pos_nat {A} (f : A -> A) p : forall x,
  SpecFloat.iter_pos f p x = Nat.iter (Pos.to_nat p) f x.
Proof.
  induction p as [p IH | p IH |]; intros x; cbn [SpecFloat.iter_pos].
  - rewrite !IH, Pos2Nat.inj_xI.
    replace (S (2 * Pos.to_nat p)) with (Pos.to_nat p + (Pos.to_nat p + 1))%nat by lia.
    rewrite !Nat.iter_add. done.
  - rewrite !IH, Pos2Nat.inj_xO.
    replace (2 * Pos.to_nat p)%nat with (Pos.to_nat p + Pos.to_nat p)%nat by lia.
    rewrite Nat.iter_add. done.
  - done.
Qed.

Lemma shr_1_nonneg m r s :
  0 <= m -> shr_1 (Build_shr_record m r s) = Build_shr_record (m / 2) (Z.odd m) (r || s).
Proof.
  intros Hm. destruct m as [| [p | p |] |]; try lia; cbn [shr_1].
  - done.
  - f_equal. rewrite Pos2Z.inj_xI. apply Z.div_unique with 1; lia.
  - f_equal. rewrite Pos2Z.inj_xO. apply Z.div_unique with 0; lia.
  - done.
Qed.

(** [n + 1] steps of [shr_1]: quotient, round bit, sticky bit. *)
Lemma shr_iter m (n : nat) :
  0 <= m ->
  Nat.iter (S n) shr_1 (Build_shr_record m false false) =
    Build_shr_record (m / 2 ^ Z.of_nat (S n))
      (Z.odd (m / 2 ^ Z.of_nat n))
      (negb (m mod 2 ^ Z.of_nat n =? 0)).
Proof.
  intros Hm. induction n as [| n IH].
  - cbn [Nat.iter]. rewrite shr_1_nonneg by done.
    change (2 ^ Z.of_nat 1) with 2. change (2 ^ Z.of_nat 0) with 1.
    by rewrite Z.div_1_r, Z.mod_1_r.
  - rewrite Nat.iter_succ, IH.
    assert (0 < 2 ^ Z.of_nat n) by (apply Z.pow_pos_nonneg; lia).
    assert (0 < 2 ^ Z.of_nat (S n)) by (apply Z.pow_pos_nonneg; lia).
    rewrite shr_1_nonneg by (apply Z.div_pos; lia).
    rewrite Z.div_div by lia.
    replace (2 ^ Z.of_nat (S n) * 2) with (2 ^ Z.of_nat (S (S n)))
      by (rewrite (Nat2Z.inj_succ (S n)), Z.pow_succ_r; lia).
    f_equal.
    rewrite (Nat2Z.inj_succ n), Z.pow_succ_r by lia.
    set (P := 2 ^ Z.of_nat n) in *.
    rewrite (Z.mul_comm 2 P), Z.rem_mul_r by lia.
    pose proof (Z.mod_pos_bound m P ltac:(lia)).
    pose proof (Z.mod_pos_bound (m / P) 2 ltac:(lia)) as Hbit.
    rewrite Zodd_mod.
    destruct (Z.eqb_spec (m mod P) 0), (Z.eqb_spec ((m / P) mod 2) 1),
      (Z.eqb_spec (m mod P + P * ((m / P) mod 2)) 0); cbn; try done;
      exfalso; nia.
Qed.

Lemma shr_round m p :
  0 <= m ->
  let mrs := SpecFloat.iter_pos shr_1 p (Build_shr_record m false false) in
  round_nearest_even (shr_m mrs) (loc_of_shr_record mrs) = rne m (Zpos p).
Proof.
  intros Hm mrs. subst mrs. rewrite iter_pos_nat.
  destruct (Pos2Nat.is_succ p) as [n Hn]. rewrite Hn.
  replace (Zpos p) with (Z.of_nat (S n)) by lia.
  rewrite shr_iter by done. unfold rne.
  rewrite (Nat2Z.inj_succ n), Z.pow_succ_r by lia.
  assert (0 < 2 ^ Z.of_nat n) by (apply Z.pow_pos_nonneg; lia).
  set (P := 2 ^ Z.of_nat n) in *.
  rewrite (Z.mul_comm 2 P), Z.rem_mul_r by lia.
  pose proof (Z.mod_pos_bound m P ltac:(lia)).
  pose proof (Z.mod_pos_bound (m / P) 2 ltac:(lia)) as Hbit.
  rewrite Zodd_mod. cbn [shr_m loc_of_shr_record].
  destruct (Z.eqb_spec (m mod P) 0), (Z.eqb_spec ((m / P) mod 2) 1);
    cbn [negb round_nearest_even];
    destruct (Z.ltb_spec (2 * (m mod P + P * ((m / P) mod 2))) (P * 2));
    destruct (Z.ltb_spec (P * 2) (2 * (m mod P + P * ((m / P) mod 2))));
    try done; exfalso; nia.
Qed.

(** The second [shr_fexp] of [binary_round_aux]: a mantissa of at most 53
    bits is kept, 2^53 is renormalised to 2^52 at the next exponent. *)
Lemma renormalise M e :
  0 < M <= 2 ^ 53 -> -1074 <= e <= 971 -> (M = 2 ^ 53 -> e <= 970) ->
  exists m' e',
    (let '(mrs, e2) :=
       shr (Build_shr_record M false false) e
         (Z.max (Zdigits2 M + e - 53) (3 - 1024 - 53) - e) in
     match shr_m mrs with
     | 0 => S754_zero false
     | Zpos m => if e2 <=? 1024 - 53 then S754_finite false m e2
                 else S754_infinity false
     | Zneg _ => S754_nan
     end) = S754_finite false m' e' /\
    -1074 <= e' /\
    Zpos m' * 2 ^ (e' + 1074) = M * 2 ^ (e + 1074).
Proof.
  intros HM He Htop.
  destruct M as [| M |]; try lia. cbn [Zdigits2]. rewrite digits2_log2.
  destruct (Z.eq_dec (Zpos M) (2 ^ 53)) as [Heq | Hne].
  - specialize (Htop Heq). injection Heq as ->. change (Z.log2 (Zpos _)) with 53.
    replace (Z.max (53 + 1 + e - 53) (3 - 1024 - 53) - e) with 1 by lia.
    cbn [shr SpecFloat.iter_pos shr_1 shr_m].
    destruct (Z.leb_spec (e + 1) (1024 - 53)); [| lia].
    eexists _, _. split; [reflexivity |]. split; [lia |].
    replace (e + 1 + 1074) with (1 + (e + 1074)) by lia.
    rewrite Z.pow_add_r by lia. lia.
  - assert (Z.log2 (Zpos M) < 53) by (apply Z.log2_lt_pow2; lia).
    pose proof (Z.log2_nonneg (Zpos M)).
    set (n := Z.max _ _ - e). assert (n <= 0) by (subst n; lia).
    destruct n as [| n | n]; try lia; cbn [shr shr_m];
      (destruct (Z.leb_spec e (1024 - 53)); [| lia]);
      eexists _, _; (split; [reflexivity |]); split; lia.
Qed.

Lemma ulp_shift_bounds X :
  0 < X ->
  let sh := Z.max (Z.log2 X - 52) 0 in
  0 <= sh <= Z.log2 X.
Proof. intros HX sh. pose proof (Z.log2_nonneg X). lia. Qed.

(** [binary_round_aux] rounds the exact value [m * 2^e], which is [X] in
    units of 2^-1074, as [round_grid] does.  The exponent [e] may lie below
    -1074, as it does for a product with a subnormal factor. *)
Lemma binary_round_aux_grid m e X :
  Zpos m * 2 ^ Z.max 0 (e + 1074) = X * 2 ^ Z.max 0 (- (e + 1074)) ->
  e <= 971 -> Z.log2 (Zpos m) + e <= 1022 ->
  exists m' e',
    binary_round_aux 53 1024 false (Zpos m) e loc_Exact = S754_finite false m' e' /\
    -1074 <= e' /\
    Zpos m' * 2 ^ (e' + 1074) = round_grid X.
Proof.
  intros Hexact He Hlog.
  assert (HX : 0 < X).
  { assert (0 < 2 ^ Z.max 0 (e + 1074)) by (apply Z.pow_pos_nonneg; lia).
    assert (0 < 2 ^ Z.max 0 (- (e + 1074))) by (apply Z.pow_pos_nonneg; lia).
    nia. }
  set (L := Z.log2 (Zpos m)) in *.
  assert (HL : 0 <= L) by apply Z.log2_nonneg.
  assert (HlogX : Z.log2 X = L + (e + 1074)).
  { destruct (Z.le_gt_cases 0 (e + 1074)).
    - replace (Z.max 0 (e + 1074)) with (e + 1074) in Hexact by lia;
      replace (Z.max 0 (- (e + 1074))) with 0 in Hexact by lia;
      rewrite Z.pow_0_r, Z.mul_1_r in Hexact.
      rewrite <- Hexact, Z.log2_mul_pow2 by lia. subst L. lia.
    - replace (Z.max 0 (e + 1074)) with 0 in Hexact by lia;
      replace (Z.max 0 (- (e + 1074))) with (- (e + 1074)) in Hexact by lia;
      rewrite Z.pow_0_r, Z.mul_1_r in Hexact.
      subst L. rewrite Hexact, Z.log2_mul_pow2 by lia. lia. }
  pose proof (ulp_shift_bounds X HX) as Hsh. cbv zeta in Hsh.
  unfold round_grid. set (sh := Z.max (Z.log2 X - 52) 0) in *.
  unfold binary_round_aux, shr_fexp. cbn [Zdigits2 shr_record_of_loc].
  rewrite digits2_log2. unfold fexp, emin. fold L.
  destruct (Z.max (L + 1 + e - 53) (3 - 1024 - 53) - e) as [| p | p] eqn:Hn;
    cbn [shr].
  1, 3: cbn [shr_m loc_of_shr_record round_nearest_even];
    destruct (renormalise (Zpos m) e) as (m' & e' & Heq & He' & Hval);
    [ split; [lia |]; apply Z.lt_le_incl, Z.log2_lt_pow2; fold L; lia
    | lia
    | intros Htop; assert (L = 53) by (subst L; rewrite Htop; reflexivity); lia
    | exists m', e'; split; [exact Heq |]; split; [exact He' |];
      rewrite Hval;
      replace (Z.max 0 (e + 1074)) with (e + 1074) in Hexact by lia;
      replace (Z.max 0 (- (e + 1074))) with 0 in Hexact by lia;
      rewrite Z.pow_0_r, Z.mul_1_r in Hexact;
      rewrite <- Hexact;
      replace (Zpos m * 2 ^ (e + 1074))
        with (Zpos m * 2 ^ (e + 1074 - sh) * 2 ^ sh)
        by (rewrite <- Z.mul_assoc, <- Z.pow_add_r by lia; do 2 f_equal; lia);
      rewrite rne_exact by lia; lia ].
  pose proof (shr_round (Zpos m) p ltac:(lia)) as Hround. cbv zeta in Hround.
  rewrite Hround. clear Hround.
  assert (Hp : Zpos p = sh - (e + 1074)) by lia.
  assert (Hrne : rne (Zpos m) (Zpos p) = rne X sh).
  { destruct (Z.le_gt_cases 0 (e + 1074)).
    - replace (Z.max 0 (e + 1074)) with (e + 1074) in Hexact by lia;
      replace (Z.max 0 (- (e + 1074))) with 0 in Hexact by lia;
      rewrite Z.pow_0_r, Z.mul_1_r in Hexact.
      rewrite <- Hexact.
      replace sh with (Zpos p + (e + 1074)) by lia.
      by rewrite rne_scale by lia.
    - replace (Z.max 0 (e + 1074)) with 0 in Hexact by lia;
      replace (Z.max 0 (- (e + 1074))) with (- (e + 1074)) in Hexact by lia;
      rewrite Z.pow_0_r, Z.mul_1_r in Hexact.
      rewrite Hexact.
      replace (Zpos p) with (sh + - (e + 1074)) by lia.
      by rewrite rne_scale by lia. }
  rewrite Hrne.
  pose proof (Z.log2_spec X HX) as [Hlo Hhi].
  assert (Hlow : 1 <= rne X sh).
  { apply rne_lower; [lia |]. rewrite Z.mul_1_l.
    etransitivity; [| exact Hlo]. apply Z.pow_le_mono_r; lia. }
  assert (Hup : rne X sh <= 2 ^ 53).
  { apply rne_upper; [lia |]. rewrite <- Z.pow_add_r by lia.
    apply Z.lt_le_incl. eapply Z.lt_le_trans; [exact Hhi |].
    apply Z.pow_le_mono_r; lia. }
  destruct (renormalise (rne X sh) (e + Zpos p))
    as (m' & e' & Heq & He' & Hval); [lia | lia | lia |].
  exists m', e'. split; [exact Heq |]. split; [exact He' |].
  rewrite Hval. do 2 f_equal. lia.
Qed.

Lemma shl_align_pos mx ex ez :
  ez <= ex ->
  Zpos (shl_align mx ex ez).1 = Zpos mx * 2 ^ (ex - ez) /\
  (shl_align mx ex ez).2 = ez.
Proof.
  intros Hle. unfold shl_align.
  destruct (ez - ex) as [| d | d] eqn:Hd; try lia; cbn [fst snd].
  - replace (ex - ez) with 0 by lia. lia.
  - replace (ex - ez) with (Zpos d) by lia. split; [| done].
    clear Hd. induction d as [| d IH] using Pos.peano_ind.
    + cbn. lia.
    + rewrite Pos.iter_succ, Pos2Z.inj_xO, IH, Pos2Z.inj_succ, Z.pow_succ_r; lia.
Qed.

Lemma binary_round_grid m e :
  -1074 <= e -> Z.log2 (Zpos m) + e <= 1022 ->
  exists m' e',
    binary_round 53 1024 false m e = S754_finite false m' e' /\
    -1074 <= e' /\
    Zpos m' * 2 ^ (e' + 1074) = round_grid (Zpos m * 2 ^ (e + 1074)).
Proof.
  intros He Hlog. unfold binary_round.
  rewrite digits2_log2. unfold fexp, emin.
  set (L := Z.log2 (Zpos m)) in *.
  assert (HL : 0 <= L) by apply Z.log2_nonneg.
  set (q := Z.max (L + 1 + e - 53) (3 - 1024 - 53)).
  destruct (Z.le_gt_cases q e) as [Hqe | Hqe].
  - destruct (shl_align_pos m e q Hqe) as [Hm Hq].
    destruct (shl_align m e q) as [mz ez]. cbn [fst snd] in Hm, Hq. subst ez.
    destruct (binary_round_aux_grid mz q (Zpos m * 2 ^ (e + 1074)))
      as (m' & e' & Heq & He' & Hval).
    + replace (Z.max 0 (q + 1074)) with (q + 1074) by (subst q; lia).
      replace (Z.max 0 (- (q + 1074))) with 0 by (subst q; lia).
      rewrite Z.pow_0_r, Z.mul_1_r, Hm.
      rewrite <- Z.mul_assoc, <- Z.pow_add_r by (subst q; lia).
      do 2 f_equal. lia.
    + subst q. lia.
    + rewrite Hm, Z.log2_mul_pow2 by lia. fold L. lia.
    + by exists m', e'.
  - assert (Hsame : shl_align m e q = (m, e)).
    { unfold shl_align. destruct (q - e) eqn:Hd; try done. lia. }
    rewrite Hsame. apply binary_round_aux_grid; [| subst q; lia | done].
    replace (Z.max 0 (e + 1074)) with (e + 1074) by lia.
    replace (Z.max 0 (- (e + 1074))) with 0 by lia.
    by rewrite Z.pow_0_r, Z.mul_1_r.
Qed.

(** ** Rounding on the grid *)

Section RoundGrid.
Lemma round_grid_0 : round_grid 0 = 0.
Proof. reflexivity. Qed.

Lemma round_grid_ge_pow X : 0 < X -> 2 ^ Z.log2 X <= round_grid X.
Proof.
  intros HX. unfold round_grid.
  pose proof (ulp_shift_bounds X HX) as Hsh. cbv zeta in Hsh.
  set (sh := Z.max _ 0) in *.
  replace (2 ^ Z.log2 X) with (2 ^ (Z.log2 X - sh) * 2 ^ sh)
    by (rewrite <- Z.pow_add_r by lia; f_equal; lia).
  apply Z.mul_le_mono_nonneg_r; [apply Z.pow_nonneg; lia |].
  apply rne_lower; [lia |].
  rewrite <- Z.pow_add_r by lia.
  replace (Z.log2 X - sh + sh) with (Z.log2 X) by lia.
  apply Z.log2_spec; lia.
Qed.

Lemma round_grid_le_pow X : 0 < X -> round_grid X <= 2 ^ (Z.log2 X + 1).
Proof.
  intros HX. unfold round_grid.
  pose proof (ulp_shift_bounds X HX) as Hsh. cbv zeta in Hsh.
  set (sh := Z.max _ 0) in *.
  replace (2 ^ (Z.log2 X + 1)) with (2 ^ (Z.log2 X + 1 - sh) * 2 ^ sh)
    by (rewrite <- Z.pow_add_r by lia; f_equal; lia).
  apply Z.mul_le_mono_nonneg_r; [apply Z.pow_nonneg; lia |].
  apply rne_upper; [lia |].
  rewrite <- Z.pow_add_r by lia.
  replace (Z.log2 X + 1 - sh + sh) with (Z.succ (Z.log2 X)) by lia.
  pose proof (Z.log2_spec X HX). lia.
Qed.

(** A representable [Y] below the exact value stays below the rounded one. *)
Lemma round_grid_lower X Y k :
  0 < Y -> Y <= X ->
  Y = k * 2 ^ Z.max (Z.log2 Y - 52) 0 ->
  Y <= round_grid X.
Proof.
  intros HY HYX Hrep.
  assert (HX : 0 < X) by lia.
  pose proof (Z.log2_le_mono Y X HYX) as Hlog.
  destruct (Z.eq_dec (Z.log2 Y) (Z.log2 X)) as [Heq | Hne].
  - unfold round_grid. rewrite Heq in Hrep.
    pose proof (ulp_shift_bounds X HX) as Hsh. cbv zeta in Hsh.
    set (sh := Z.max _ 0) in *.
    rewrite Hrep at 1.
    apply Z.mul_le_mono_nonneg_r; [apply Z.pow_nonneg; lia |].
    apply rne_lower; lia.
  - etransitivity; [| apply round_grid_ge_pow; lia].
    pose proof (Z.log2_spec Y HY) as [_ Hlt].
    assert (2 ^ Z.succ (Z.log2 Y) <= 2 ^ Z.log2 X)
      by (apply Z.pow_le_mono_r; lia).
    lia.
Qed.

(** An exact value below the midpoint of a representable [Y] and its
    successor is rounded to [Y] at most. *)
Lemma round_grid_upper_half X Y k :
  0 <= X -> 0 < Y ->
  Y = k * 2 ^ Z.max (Z.log2 Y - 52) 0 ->
  2 * X < (2 * k + 1) * 2 ^ Z.max (Z.log2 Y - 52) 0 ->
  round_grid X <= Y.
Proof.
  intros HX0 HY Hrep Hmid.
  destruct (Z.eq_dec X 0) as [-> | HXne]; [rewrite round_grid_0; lia |].
  assert (HX : 0 < X) by lia.
  pose proof (ulp_shift_bounds Y HY) as HshY. cbv zeta in HshY.
  pose proof (Z.log2_spec Y HY) as [HYlo HYhi].
  pose proof (Z.log2_spec X HX) as [HXlo HXhi].
  destruct (Z.lt_trichotomy (Z.log2 X) (Z.log2 Y)) as [Hlt | [Heq | Hgt]].
  - etransitivity; [apply round_grid_le_pow; lia |].
    etransitivity; [| exact HYlo].
    apply Z.pow_le_mono_r; lia.
  - unfold round_grid. rewrite <- Heq in Hrep, Hmid, HshY.
    set (sh := Z.max _ 0) in *.
    rewrite Hrep.
    apply Z.mul_le_mono_nonneg_r; [apply Z.pow_nonneg; lia |].
    apply rne_upper_half; lia.
  - exfalso.
    set (sh := Z.max _ 0) in *.
    assert (0 < 2 ^ sh) as Hpos by (apply Z.pow_pos_nonneg; lia).
    assert (Hsplit : 2 ^ Z.succ (Z.log2 Y) = 2 ^ (Z.succ (Z.log2 Y) - sh) * 2 ^ sh)
      by (rewrite <- Z.pow_add_r by lia; f_equal; lia).
    assert (2 ^ Z.succ (Z.log2 Y) <= 2 ^ Z.log2 X)
      by (apply Z.pow_le_mono_r; lia).
    set (T := 2 ^ (Z.succ (Z.log2 Y) - sh)) in *.
    assert (k + 1 <= T) by nia.
    nia.
Qed.
End RoundGrid.

(** ** The number [generateOTP] prints *)

Lemma random_on_grid r :
  is_random r -> on_grid r /\ 0 <= SFgrid r <= (2 ^ 53 - 1) * 2 ^ 1021.
Proof.
  intros (Hvalid & Hpos & Hone).
  destruct r as [s | s | | s m e].
  - cbn [on_grid SFgrid]. lia.
  - destruct s; [vm_compute in Hpos | vm_compute in Hone]; discriminate.
  - vm_compute in Hone. discriminate.
  - destruct s; [vm_compute in Hpos; discriminate |]. clear Hpos.
    cbn [valid_binary] in Hvalid. unfold bounded, canonical_mantissa in Hvalid.
    apply andb_true_iff in Hvalid as [Hcanon _].
    apply Z.eqb_eq in Hcanon. rewrite digits2_log2 in Hcanon.
    unfold fexp, emin in Hcanon.
    pose proof (Z.log2_nonneg (Zpos m)) as HL.
    assert (Hm : Zpos m < 2 ^ 53) by (apply Z.log2_lt_pow2; lia).
    assert (He : e <= -53).
    { unfold SFltb in Hone. change (SFone 53 1024)
        with (S754_finite false 4503599627370496 (-52)) in Hone.
      cbn [SFcompare] in Hone.
      destruct (Z.compare_spec e (-52)) as [-> | Hlt | Hgt];
        [| lia | discriminate].
      assert (Z.log2 (Zpos m) = 52) as Hlog by lia.
      pose proof (Z.log2_spec (Zpos m) ltac:(lia)) as [Hlo _].
      rewrite Hlog in Hlo. change (2 ^ 52) with 4503599627370496 in Hlo.
      rewrite Pos.compare_cont_spec in Hone. cbn [Pos.switch_Eq] in Hone.
      rewrite Pos2Z.inj_compare in Hone.
      destruct (Z.compare_spec (Zpos m) 4503599627370496);
        [discriminate | lia | discriminate]. }
    cbn [on_grid SFgrid]. split; [lia |]. split; [lia |].
    apply Z.mul_le_mono_nonneg; [lia | lia | apply Z.pow_nonneg; lia |].
    apply Z.pow_le_mono_r; lia.
Qed.

Lemma SFgrid_finite m e : SFgrid (S754_finite false m e) = Zpos m * 2 ^ (e + 1074).
Proof. reflexivity. Qed.

Lemma SFgrid_nonneg x : 0 <= SFgrid x.
Proof.
  destruct x as [s | s | | [|] m e]; cbn [SFgrid]; try reflexivity.
  apply Z.mul_nonneg_nonneg; [lia | apply Z.pow_nonneg; lia].
Qed.

Lemma js_900000_eq : js_number 900000 = S754_finite false (900000 * 2 ^ 33) (-33).
Proof. reflexivity. Qed.

Lemma js_100000_eq : js_number 100000 = S754_finite false (100000 * 2 ^ 36) (-36).
Proof. reflexivity. Qed.

Lemma product_grid r :
  on_grid r -> SFgrid r <= (2 ^ 53 - 1) * 2 ^ 1021 ->
  let p := js_mul r (js_number 900000) in
  on_grid p /\ SFgrid p = round_grid (900000 * SFgrid r).
Proof.
  intros Hgrid Hle p. subst p. unfold js_mul. rewrite js_900000_eq.
  destruct r as [s | s | | [|] m e]; cbn [on_grid] in Hgrid; try contradiction.
  { cbn [SFmul on_grid SFgrid]. by rewrite Z.mul_0_r. }
  rewrite SFgrid_finite in Hle |- *.
  cbn [SFmul xorb].
  set (X := 900000 * (Zpos m * 2 ^ (e + 1074))).
  assert (Hexact : Zpos (m * (900000 * 2 ^ 33)) * 2 ^ Z.max 0 (e + -33 + 1074) =
                   X * 2 ^ Z.max 0 (- (e + -33 + 1074))).
  { subst X. rewrite Pos2Z.inj_mul.
    change (Zpos (900000 * 2 ^ 33)) with (900000 * 2 ^ 33).
    destruct (Z.le_gt_cases 0 (e + -33 + 1074)).
    - replace (Z.max 0 (e + -33 + 1074)) with (e + -33 + 1074) by lia.
      replace (Z.max 0 (- (e + -33 + 1074))) with 0 by lia.
      replace (e + 1074) with (33 + (e + -33 + 1074)) by lia.
      rewrite Z.pow_0_r, (Z.pow_add_r 2 33 (e + -33 + 1074)) by lia. lia.
    - replace (Z.max 0 (e + -33 + 1074)) with 0 by lia.
      replace (Z.max 0 (- (e + -33 + 1074))) with (- (e + -33 + 1074)) by lia.
      rewrite Z.pow_0_r, <- !Z.mul_assoc, <- Z.pow_add_r by lia.
      replace (e + 1074 + - (e + -33 + 1074)) with 33 by lia. lia. }
  assert (HX : 0 < X).
  { subst X. apply Z.mul_pos_pos; [lia |].
    apply Z.mul_pos_pos; [lia | apply Z.pow_pos_nonneg; lia]. }
  assert (Hlog : Z.log2 (Zpos (m * (900000 * 2 ^ 33))) + (e + -33) <= 1022).
  { assert (Z.log2 X < 1094).
    { apply Z.log2_lt_pow2; [done |]. subst X.
      change (2 ^ 1094) with (2 ^ 20 * 2 ^ 53 * 2 ^ 1021). lia. }
    assert (Z.log2 (Zpos (m * (900000 * 2 ^ 33)) * 2 ^ Z.max 0 (e + -33 + 1074)) =
            Z.log2 (X * 2 ^ Z.max 0 (- (e + -33 + 1074)))) as Hl by by rewrite Hexact.
    rewrite !Z.log2_mul_pow2 in Hl by lia. lia. }
  assert (He : e <= 0).
  { destruct (Z.le_gt_cases e 0) as [| Hpos]; [done | exfalso].
    assert (2 ^ 1075 <= 2 ^ (e + 1074)) by (apply Z.pow_le_mono_r; lia).
    change (2 ^ 1075) with (2 * 2 ^ 53 * 2 ^ 1021) in *. nia. }
  destruct (binary_round_aux_grid (m * (900000 * 2 ^ 33)) (e + -33) X)
    as (m' & e' & Heq & He' & Hval); [exact Hexact | lia | exact Hlog |].
  rewrite Heq. cbn [on_grid]. split; [exact He' |].
  by rewrite SFgrid_finite.
Qed.

Lemma sum_grid p :
  on_grid p -> SFgrid p <= 900000 * 2 ^ 1074 ->
  let s := js_add (js_number 100000) p in
  on_grid s /\ SFgrid s = round_grid (100000 * 2 ^ 1074 + SFgrid p).
Proof.
  intros Hgrid Hle s. subst s. unfold js_add. rewrite js_100000_eq.
  destruct p as [s | s | | [|] m e]; cbn [on_grid] in Hgrid; try contradiction.
  - cbn [SFadd on_grid]. split; [lia |].
    rewrite SFgrid_finite. cbn [SFgrid]. rewrite Z.add_0_r. unfold round_grid.
    change (Z.max (Z.log2 (100000 * 2 ^ 1074) - 52) 0) with (-36 + 1074).
    change (100000 * 2 ^ 1074) with (100000 * 2 ^ 36 * 2 ^ (-36 + 1074)).
    by rewrite rne_exact by lia.
  - rewrite SFgrid_finite in Hle |- *.
    cbn [SFadd cond_Zopp].
    set (ez := Z.min (-36) e).
    destruct (shl_align_pos (100000 * 2 ^ 36) (-36) ez ltac:(lia)) as [Ha _].
    destruct (shl_align_pos m e ez ltac:(lia)) as [Hb _].
    set (a := (shl_align (100000 * 2 ^ 36) (-36) ez).1) in *.
    set (b := (shl_align m e ez).1) in *.
    change (Zpos a + Zpos b) with (Zpos (a + b)). cbn [binary_normalize].
    assert (Hsum : Zpos (a + b) * 2 ^ (ez + 1074) =
                   100000 * 2 ^ 1074 + Zpos m * 2 ^ (e + 1074)).
    { rewrite Pos2Z.inj_add, Ha, Hb, Z.mul_add_distr_r.
      change (Zpos (100000 * 2 ^ 36)) with (100000 * 2 ^ 36).
      rewrite <- !Z.mul_assoc, <- !Z.pow_add_r by lia.
      replace (36 + (-36 - ez + (ez + 1074))) with 1074 by lia.
      replace (e - ez + (ez + 1074)) with (e + 1074) by lia. reflexivity. }
    assert (Hlog : Z.log2 (Zpos (a + b) * 2 ^ (ez + 1074)) < 1094).
    { apply Z.log2_lt_pow2; [apply Z.mul_pos_pos; [lia | apply Z.pow_pos_nonneg; lia] |].
      rewrite Hsum. change (2 ^ 1094) with (2 ^ 20 * 2 ^ 1074). lia. }
    rewrite Z.log2_mul_pow2 in Hlog by lia.
    destruct (binary_round_grid (a + b) ez) as (m' & e' & Heq & He' & Hval);
      [lia | lia |].
    rewrite Heq. cbn [on_grid]. split; [exact He' |].
    rewrite SFgrid_finite, Hval, Hsum. reflexivity.
Qed.

Lemma Math_floor_grid x :
  on_grid x -> Math_floor x = SFgrid x / 2 ^ 1074.
Proof.
  intros He.
  destruct x as [s | s | | [|] m e]; cbn [on_grid] in He; try contradiction.
  { reflexivity. }
  rewrite SFgrid_finite. cbn [Math_floor cond_Zopp].
  destruct (Z.le_gt_cases 0 e).
  - rewrite Z.shiftl_mul_pow2, Z.pow_add_r, Z.mul_assoc, Z.div_mul by lia.
    reflexivity.
  - replace e with (- - e) at 1 by lia.
    rewrite Z.shiftl_opp_r, Z.shiftr_div_pow2 by lia.
    replace (2 ^ 1074) with (2 ^ (- e) * 2 ^ (e + 1074))
      by (rewrite <- Z.pow_add_r by lia; f_equal; lia).
    rewrite Z.div_mul_cancel_r; [reflexivity | |]; apply Z.pow_nonzero; lia.
Qed.

Lemma generate_range rand :
  is_random rand ->
  100000 <= Math_floor (js_add (js_number 100000) (js_mul rand (js_number 900000)))
         <= 999999.
Proof.
  intros Hrand.
  destruct (random_on_grid rand Hrand) as (Hgrid & Hr0 & Hr).
  destruct (product_grid rand Hgrid Hr) as [Hpg Hp].
  set (p := js_mul rand (js_number 900000)) in *.
  assert (Hpmax : SFgrid p <= (900000 * 2 ^ 33 - 1) * 2 ^ 1041).
  { rewrite Hp.
    apply (round_grid_upper_half _ _ (900000 * 2 ^ 33 - 1)); [lia | lia | |].
    - reflexivity.
    - change (Z.max (Z.log2 ((900000 * 2 ^ 33 - 1) * 2 ^ 1041) - 52) 0)
        with 1041.
      lia. }
  pose proof (SFgrid_nonneg p) as Hp0.
  destruct (sum_grid p Hpg) as [Hsg Hs]; [lia |].
  set (s := js_add (js_number 100000) p) in *.
  rewrite Math_floor_grid by exact Hsg. rewrite Hs.
  set (S := 100000 * 2 ^ 1074 + SFgrid p) in *.
  assert (Hlo : 100000 * 2 ^ 1074 <= round_grid S).
  { apply (round_grid_lower _ _ (100000 * 2 ^ 36)); [lia | lia | reflexivity]. }
  assert (Hhi : round_grid S <= (1000000 * 2 ^ 33 - 1) * 2 ^ 1041).
  { apply (round_grid_upper_half _ _ (1000000 * 2 ^ 33 - 1)); [lia | lia | |].
    - reflexivity.
    - change (Z.max (Z.log2 ((1000000 * 2 ^ 33 - 1) * 2 ^ 1041) - 52) 0)
        with 1041.
      lia. }
  split.
  - apply Z.div_le_lower_bound; lia.
  - assert (round_grid S / 2 ^ 1074 < 1000000); [| lia].
    apply Z.div_lt_upper_bound; lia.
Qed.

(** ** Decimal digits *)

Section Digits.
Lemma digit_char_is_digit d : 0 <= d < 10 -> is_digit (digit_char d) = true.
Proof.
  intros Hd.
  assert (d = 0 \/ d = 1 \/ d = 2 \/ d = 3 \/ d = 4 \/ d = 5 \/ d = 6 \/
          d = 7 \/ d = 8 \/ d = 9) as Hcases by lia.
  repeat (destruct Hcases as [-> | Hcases]; [reflexivity |]).
  by subst d.
Qed.

Lemma digit_char_value d :
  0 <= d < 10 -> Z.of_N (N_of_ascii (digit_char d)) - 48 = d.
Proof.
  intros Hd.
  assert (d = 0 \/ d = 1 \/ d = 2 \/ d = 3 \/ d = 4 \/ d = 5 \/ d = 6 \/
          d = 7 \/ d = 8 \/ d = 9) as Hcases by lia.
  repeat (destruct Hcases as [-> | Hcases]; [reflexivity |]).
  by subst d.
Qed.

Lemma digits_of_all_digits fuel : forall n acc,
  0 <= n -> all_digits acc = true -> all_digits (digits_of fuel n acc) = true.
Proof.
  induction fuel as [| fuel IH]; intros n acc Hn Hacc; [done |].
  assert (Hacc' : all_digits (String (digit_char (n mod 10)) acc) = true).
  { unfold all_digits in *. cbn [list_ascii_of_string forallb].
    rewrite digit_char_is_digit by (apply Z.mod_pos_bound; lia). done. }
  cbn [digits_of]. destruct (n <? 10); [done |].
  apply IH; [apply Z.div_pos; lia | done].
Qed.

Lemma digits_of_length (k : nat) : forall (fuel : nat) n acc,
  10 ^ Z.of_nat k <= n < 10 ^ Z.of_nat (S k) -> (k < fuel)%nat ->
  String.length (digits_of fuel n acc) = (S k + String.length acc)%nat.
Proof.
  induction k as [| k IH]; intros fuel n acc Hn Hfuel;
    (destruct fuel as [| fuel]; [lia |]); cbn [digits_of].
  - change (10 ^ Z.of_nat 1) with 10 in Hn.
    destruct (Z.ltb_spec n 10); [done | lia].
  - rewrite !Nat2Z.inj_succ, !Z.pow_succ_r in Hn by lia.
    assert (0 < 10 ^ Z.of_nat k) by (apply Z.pow_pos_nonneg; lia).
    destruct (Z.ltb_spec n 10); [lia |].
    rewrite IH; [cbn; lia | | lia].
    rewrite Nat2Z.inj_succ, Z.pow_succ_r by lia. split.
    + apply Z.div_le_lower_bound; lia.
    + apply Z.div_lt_upper_bound; lia.
Qed.

Lemma digits_of_value fuel : forall n acc,
  0 <= n < 10 ^ Z.of_nat fuel ->
  decimal_value (digits_of fuel n acc) =
    fold_left (fun v c => 10 * v + (Z.of_N (N_of_ascii c) - 48))
              (list_ascii_of_string acc) n.
Proof.
  induction fuel as [| fuel IH]; intros n acc Hn.
  - change (10 ^ Z.of_nat 0) with 1 in Hn. by replace n with 0 by lia.
  - rewrite Nat2Z.inj_succ, Z.pow_succ_r in Hn by lia.
    cbn [digits_of]. destruct (Z.ltb_spec n 10) as [Hsmall | Hbig].
    + unfold decimal_value. cbn [list_ascii_of_string fold_left].
      rewrite Z.mod_small, digit_char_value by lia. f_equal; lia.
    + rewrite IH.
      * cbn [list_ascii_of_string fold_left].
        rewrite digit_char_value by (apply Z.mod_pos_bound; lia).
        f_equal; pose proof (Z.div_mod n 10); lia.
      * split; [apply Z.div_pos; lia | apply Z.div_lt_upper_bound; lia].
Qed.

Lemma toString_fuel n : 0 <= n -> n < 10 ^ Z.of_nat (S (Z.to_nat (Z.log2 n))).
Proof.
  intros Hn. pose proof (Z.log2_nonneg n) as Hlog.
  rewrite Nat2Z.inj_succ, Z2Nat.id by done.
  destruct (Z.eq_dec n 0) as [-> | Hne]; [done |].
  pose proof (Z.log2_spec n ltac:(lia)) as [_ Hlt].
  eapply Z.lt_le_trans; [exact Hlt |].
  apply Z.pow_le_mono_l. lia.
Qed.

Lemma Number_toString_value n :
  0 <= n -> decimal_value (Number_toString n) = n.
Proof.
  intros Hn. unfold Number_toString.
  rewrite digits_of_value; [done |]. split; [done | by apply toString_fuel].
Qed.

Lemma Number_toString_six n :
  100000 <= n <= 999999 -> String.length (Number_toString n) = 6%nat.
Proof.
  intros Hn. unfold Number_toString.
  rewrite (digits_of_length 5); [done | cbn; lia |].
  assert (16 <= Z.log2 n) by (apply Z.log2_le_pow2; lia).
  lia.
Qed.
End Digits.

(** ** The code generator *)

Example generateOTP_extremes :
  generateOTP (S754_zero false) = "100000" /\
  generateOTP rand_quarter = "325000" /\
  generateOTP rand_half = "550000" /\
  generateOTP rand_max = "999999".
Proof. repeat split; vm_compute; reflexivity. Qed.

(** C7 (generator output shape).  For every value [Math.random()] can
    return, a binary64 number in [0, 1), the code [generateOTP] produces is
    a string of exactly 6 characters, all of them ASCII digits, and the
    number it spells lies between 100000 and 999999: the first digit is
    never 0. *)
Theorem generated_code_shape rand :
  is_random rand ->
  let code := generateOTP rand in
  String.length code = 6%nat /\
  all_digits code = true /\
  100000 <= decimal_value code <= 999999.
Proof.
  intros Hrand code. subst code. unfold generateOTP.
  pose proof (generate_range rand Hrand) as Hrange.
  set (n := Math_floor _) in *.
  split; [by apply Number_toString_six |].
  split; [apply digits_of_all_digits; [lia | done] |].
  rewrite Number_toString_value; lia.
Qed.

Lemma generated_code_shape_witness :
  is_random rand_max /\
  String.length (generateOTP rand_max) = 6%nat /\
  all_digits (generateOTP rand_max) = true /\
  100000 <= decimal_value (generateOTP rand_max) <= 999999.
Proof.
  assert (Hrand : is_random rand_max) by (repeat split).
  split; [exact Hrand |].
  exact (generated_code_shape rand_max Hrand).
Defined.

(** * Properties of the service *)

(** ** The four outcomes of [verifyOTP] *)

Section VerifyCases.
Context (now : Z) (mobile candidate : string) (this : OTPService).

Lemma verifyOTP_absent :
  otpStore this !! mobile = None ->
  verifyOTP now mobile candidate this = (false, this, []).
Proof. unfold verifyOTP. by intros ->. Qed.

Lemma verifyOTP_expired record :
  otpStore this !! mobile = Some record ->
  expiresAt record < now ->
  verifyOTP now mobile candidate this = (false, this, []).
Proof.
  unfold verifyOTP. intros -> Hlt.
  destruct (Z.ltb_spec (expiresAt record) now); [done | lia].
Qed.

Lemma verifyOTP_mismatch record :
  otpStore this !! mobile = Some record ->
  now <= expiresAt record ->
  otp record <> candidate ->
  verifyOTP now mobile candidate this = (false, this, []).
Proof.
  unfold verifyOTP. intros -> Hle Hne.
  destruct (Z.ltb_spec (expiresAt record) now); [lia |].
  by rewrite bool_decide_eq_false_2.
Qed.

Lemma verifyOTP_match record :
  otpStore this !! mobile = Some record ->
  now <= expiresAt record ->
  otp record = candidate ->
  verifyOTP now mobile candidate this =
    (true,
     {| otpStore := delete mobile (otpStore this);
        latestOtp := latestOtp this;
        latestMobile := latestMobile this |},
     [MapDelete mobile]).
Proof.
  unfold verifyOTP. intros -> Hle Heq.
  destruct (Z.ltb_spec (expiresAt record) now); [lia |].
  by rewrite bool_decide_eq_true_2.
Qed.

(** Whatever the outcome, the store is either untouched or has lost the
    record of [mobile], and the latter exactly when the result is [true]. *)
Lemma verifyOTP_effect :
  let '(ok, this', evs) := verifyOTP now mobile candidate this in
  if ok
  then evs = [MapDelete mobile] /\
       otpStore this' = delete mobile (otpStore this)
  else evs = [] /\ this' = this.
Proof.
  unfold verifyOTP.
  destruct (otpStore this !! mobile) as [record|]; [| done].
  destruct (expiresAt record <? now); [done |].
  by destruct (bool_decide (otp record = candidate)).
Qed.

Lemma verifyOTP_latestOtp :
  latestOtp (verifyOTP now mobile candidate this).1.2 = latestOtp this.
Proof.
  unfold verifyOTP.
  destruct (otpStore this !! mobile) as [record|]; [| done].
  destruct (expiresAt record <? now); [done |].
  by destruct (bool_decide (otp record = candidate)).
Qed.
End VerifyCases.

(** ** What [sendOTP] leaves behind *)

Lemma store_mutations_console (sent : list console_entry) :
  store_mutations (List.map Console sent) = [].
Proof. induction sent as [| entry sent IH]; [done | exact IH]. Qed.

Lemma sendOTP_result notify now rand mobile this :
  (sendOTP notify now rand mobile this).1 =
    (Return tt,
     {| otpStore :=
          <[mobile := {| otp := generateOTP rand; expiresAt := now + OTP_TTL |}]>
            (otpStore this);
        latestOtp := Some (generateOTP rand);
        latestMobile := Some mobile |}).
Proof.
  unfold sendOTP, generateUniqueOTP.
  by destruct (notify mobile _) as [[ok | err] sent].
Qed.

Lemma sendOTP_store notify now rand mobile this :
  otpStore (sendOTP notify now rand mobile this).1.2 =
    <[mobile := {| otp := generateOTP rand; expiresAt := now + OTP_TTL |}]>
      (otpStore this).
Proof. by rewrite sendOTP_result. Qed.

Lemma sendOTP_lookup notify now rand mobile this :
  otpStore (sendOTP notify now rand mobile this).1.2 !! mobile =
    Some {| otp := generateOTP rand; expiresAt := now + OTP_TTL |}.
Proof. rewrite sendOTP_store. apply lookup_insert_eq. Qed.

Lemma sendOTP_mutations notify now rand mobile this :
  store_mutations (sendOTP notify now rand mobile this).2 =
    [MapSet mobile {| otp := generateOTP rand; expiresAt := now + OTP_TTL |}].
Proof.
  unfold sendOTP, generateUniqueOTP, store_mutations.
  destruct (notify mobile _) as [[ok | err] sent]; cbn [snd List.app List.filter
    is_store_mutation]; f_equal.
  - apply store_mutations_console.
  - rewrite List.filter_app. fold (store_mutations (List.map Console sent)).
    by rewrite store_mutations_console.
Qed.

(** ** The claims *)

(** C1 (one-time use).  After [sendOTP] for [mobile] has stored the code it
    generated, a [verifyOTP] with that code made while the record has not
    expired returns [true] and removes the record; a second [verifyOTP] with
    the same code, at any time and so also immediately after, returns
    [false]. *)
Theorem one_time_use notify t0 rand mobile this t1 t2 :
  let code := generateOTP rand in
  let issued := (sendOTP notify t0 rand mobile this).1.2 in
  let first := verifyOTP t1 mobile code issued in
  let second := verifyOTP t2 mobile code first.1.2 in
  t1 <= t0 + OTP_TTL ->
  otpStore issued !! mobile = Some {| otp := code; expiresAt := t0 + OTP_TTL |} /\
  first.1.1 = true /\
  otpStore first.1.2 !! mobile = None /\
  second.1.1 = false.
Proof.
  intros code issued first second Hlive.
  pose proof (sendOTP_lookup notify t0 rand mobile this) as Hrec.
  fold issued code in Hrec.
  assert (Hfirst : first = (true,
            {| otpStore := delete mobile (otpStore issued);
               latestOtp := latestOtp issued;
               latestMobile := latestMobile issued |},
            [MapDelete mobile])).
  { subst first. by eapply verifyOTP_match. }
  split; [exact Hrec |].
  subst second. rewrite Hfirst. cbn [fst snd otpStore].
  split; [done |]. split; [apply lookup_delete_eq |].
  rewrite verifyOTP_absent; [done |]. apply lookup_delete_eq.
Qed.

Lemma one_time_use_witness :
  let code := generateOTP rand_half in
  let issued := (sendOTP (sendSms None) 1000 rand_half "5550001" otpService).1.2 in
  let first := verifyOTP 2000 "5550001" code issued in
  let second := verifyOTP 2000 "5550001" code first.1.2 in
  otpStore issued !! "5550001" = Some {| otp := code; expiresAt := 1000 + OTP_TTL |} /\
  first.1.1 = true /\
  otpStore first.1.2 !! "5550001" = None /\
  second.1.1 = false.
Proof.
  apply (one_time_use (sendSms None) 1000 rand_half "5550001" otpService 2000 2000).
  vm_compute. discriminate.
Defined.

(** C2 (absent-or-expired rejection), as the code has it.  [verifyOTP]
    returns [false] when there is no record for [mobile] or the stored
    record has [expiresAt < now], whatever the candidate and so also when
    it equals the stored code; in both cases the state is untouched and
    nothing is recorded, so the two cases cannot be told apart.  The test of
    the code is strict: at [expiresAt = now] the record is still honoured,
    and the stored code verifies. *)
Theorem absent_or_expired_rejected now mobile candidate this :
  (otpStore this !! mobile = None \/
   (exists record,
      otpStore this !! mobile = Some record /\ expiresAt record < now) ->
   verifyOTP now mobile candidate this = (false, this, [])) /\
  (forall record,
     otpStore this !! mobile = Some record ->
     expiresAt record = now ->
     (verifyOTP now mobile (otp record) this).1.1 = true).
Proof.
  split.
  - intros [Habsent | (record & Hrec & Hlt)].
    + by apply verifyOTP_absent.
    + by eapply verifyOTP_expired.
  - intros record Hrec Hnow.
    erewrite verifyOTP_match; [done | exact Hrec | lia | done].
Qed.

Lemma absent_or_expired_rejected_witness :
  let issued := (sendOTP (sendSms None) 0 rand_half "5550002" otpService).1.2 in
  verifyOTP 300001 "5550002" "550000" issued = (false, issued, []) /\
  (verifyOTP 300000 "5550002" "550000" issued).1.1 = true.
Proof.
  intros issued.
  assert (Hrec : otpStore issued !! "5550002" =
                 Some {| otp := "550000"; expiresAt := 300000 |}).
  { subst issued. rewrite sendOTP_lookup. reflexivity. }
  split.
  - apply (absent_or_expired_rejected 300001 "5550002" "550000" issued).
    right. exists {| otp := "550000"; expiresAt := 300000 |}.
    split; [exact Hrec | simpl; lia].
  - apply (proj2 (absent_or_expired_rejected 300000 "5550002" "550000" issued)
             {| otp := "550000"; expiresAt := 300000 |} Hrec).
    reflexivity.
Defined.

(** C2 as the specification words it ([expiresAt <= now] rejects) fails at
    the boundary: a code issued at time 0 expires at 300000, and at
    [now = 300000] it still verifies. *)
Lemma expired_at_boundary_accepted :
  let issued := (sendOTP (sendSms None) 0 rand_half "5550002" otpService).1.2 in
  exists record,
    otpStore issued !! "5550002" = Some record /\
    expiresAt record <= 300000 /\
    (verifyOTP 300000 "5550002" (otp record) issued).1.1 = true.
Proof.
  intros issued.
  exists {| otp := generateOTP rand_half; expiresAt := 0 + OTP_TTL |}.
  split; [apply sendOTP_lookup |].
  split; [vm_compute; discriminate |].
  erewrite verifyOTP_match; [reflexivity | apply sendOTP_lookup | | reflexivity].
  vm_compute. discriminate.
Qed.

(** C3 (failed attempts are non-consuming).  With an unexpired record for
    [mobile], a [verifyOTP] with any other candidate returns [false] and
    leaves the whole state, the record included, as it was, so that a later
    [verifyOTP] with the stored code made before expiry returns [true].
    Every [verifyOTP] performs at most one store mutation: the [delete] of
    the record of [mobile] when it returns [true], none when it returns
    [false]. *)
Theorem failed_attempt_keeps_record now later mobile candidate this record :
  otpStore this !! mobile = Some record ->
  now <= expiresAt record ->
  later <= expiresAt record ->
  candidate <> otp record ->
  verifyOTP now mobile candidate this = (false, this, []) /\
  otpStore (verifyOTP now mobile candidate this).1.2 !! mobile = Some record /\
  (verifyOTP later mobile (otp record)
     (verifyOTP now mobile candidate this).1.2).1.1 = true /\
  (forall now' mobile' candidate' this',
     let result := verifyOTP now' mobile' candidate' this' in
     (length (store_mutations result.2) <= 1)%nat /\
     store_mutations result.2 =
       (if result.1.1 then [MapDelete mobile'] else []) /\
     otpStore result.1.2 =
       (if result.1.1 then delete mobile' (otpStore this') else otpStore this')).
Proof.
  intros Hrec Hnow Hlater Hne.
  assert (Hfail : verifyOTP now mobile candidate this = (false, this, [])).
  { eapply verifyOTP_mismatch; eauto. }
  rewrite Hfail. cbn [fst snd].
  split; [done |]. split; [done |].
  split; [by erewrite verifyOTP_match |].
  intros now' mobile' candidate' this'.
  pose proof (verifyOTP_effect now' mobile' candidate' this') as Heff.
  destruct (verifyOTP now' mobile' candidate' this') as [[ok after] evs].
  cbn [fst snd]. destruct ok; destruct Heff as [-> Hst]; rewrite Hst;
    cbn; repeat split; lia.
Qed.

Lemma failed_attempt_keeps_record_witness :
  let issued := (sendOTP (sendSms None) 0 rand_half "5550001" otpService).1.2 in
  verifyOTP 10 "5550001" "000000" issued = (false, issued, []) /\
  (verifyOTP 20 "5550001" "550000"
     (verifyOTP 10 "5550001" "000000" issued).1.2).1.1 = true.
Proof.
  intros issued.
  destruct (failed_attempt_keeps_record 10 20 "5550001" "000000" issued
              {| otp := "550000"; expiresAt := 300000 |})
    as (Hfail & _ & Hretry & _).
  - subst issued. rewrite sendOTP_lookup. reflexivity.
  - simpl. lia.
  - simpl. lia.
  - simpl. discriminate.
  - split; [exact Hfail | exact Hretry].
Defined.

(** C4 (what happens to an expired record), as the code has it.  A
    [verifyOTP] that finds a record whose expiry has passed returns [false]
    and performs no store mutation: the record stays in the store.  It is
    only ignored from then on: every [verifyOTP] at that time or later
    returns [false], whatever the candidate.  The only [delete] is the one
    on success: a [verifyOTP] that returns [false] leaves the state as it
    was. *)
Theorem expired_record_kept now mobile candidate this record :
  otpStore this !! mobile = Some record ->
  expiresAt record < now ->
  let result := verifyOTP now mobile candidate this in
  result.1.1 = false /\
  store_mutations result.2 = [] /\
  otpStore result.1.2 !! mobile = Some record /\
  (forall later candidate',
     now <= later ->
     (verifyOTP later mobile candidate' result.1.2).1.1 = false) /\
  (forall now' mobile' candidate' this',
     (verifyOTP now' mobile' candidate' this').1.1 = false ->
     (verifyOTP now' mobile' candidate' this').1.2 = this').
Proof.
  intros Hrec Hlt result. subst result.
  erewrite verifyOTP_expired by eauto. cbn [fst snd].
  repeat split; try done.
  - intros later candidate' Hle.
    erewrite verifyOTP_expired; [done | exact Hrec | lia].
  - intros now' mobile' candidate' this'.
    pose proof (verifyOTP_effect now' mobile' candidate' this') as Heff.
    destruct (verifyOTP now' mobile' candidate' this') as [[ok after] evs].
    cbn [fst snd]. intros ->. by destruct Heff.
Qed.

Lemma expired_record_kept_witness :
  let issued := (sendOTP (sendSms None) 0 rand_half "5550002" otpService).1.2 in
  (verifyOTP 300001 "5550002" "550000" issued).1.1 = false /\
  otpStore (verifyOTP 300001 "5550002" "550000" issued).1.2 !! "5550002" =
    Some {| otp := "550000"; expiresAt := 300000 |}.
Proof.
  intros issued.
  destruct (expired_record_kept 300001 "5550002" "550000" issued
              {| otp := "550000"; expiresAt := 300000 |})
    as (Hfalse & _ & Hkept & _ & _).
  - subst issued. rewrite sendOTP_lookup. reflexivity.
  - simpl. lia.
  - split; [exact Hfalse | exact Hkept].
Defined.

(** C4 as the specification words it (the expired record is deleted by the
    check) fails: after a [verifyOTP] made past the expiry the record is
    still in the store. *)
Lemma expired_record_not_deleted :
  let issued := (sendOTP (sendSms None) 0 rand_half "5550002" otpService).1.2 in
  let result := verifyOTP 300001 "5550002" "550000" issued in
  otpStore issued !! "5550002" = Some {| otp := "550000"; expiresAt := 300000 |} /\
  300000 < 300001 /\
  result.1.1 = false /\
  otpStore result.1.2 !! "5550002" =
    Some {| otp := "550000"; expiresAt := 300000 |} /\
  otpStore result.1.2 !! "5550002" <> None.
Proof.
  intros issued result.
  assert (Hrec : otpStore issued !! "5550002" =
                 Some {| otp := "550000"; expiresAt := 300000 |}).
  { subst issued. rewrite sendOTP_lookup. reflexivity. }
  assert (Hres : result = (false, issued, [])).
  { subst result. eapply verifyOTP_expired; [exact Hrec | simpl; lia]. }
  rewrite Hres. cbn [fst snd]. rewrite Hrec.
  repeat split; done.
Qed.

(** C5 (failure isolation of issuance).  Whatever the notifier does, return
    any value or throw any error, [sendOTP] returns normally, and the state
    it leaves is the one [generateUniqueOTP] built, with the record stored;
    an error the notifier throws ends up on the console, as the last thing
    printed, and nowhere else.  The notifier of the repository, [sendSms],
    never throws in the first place, whatever the mail service does. *)
Theorem issuance_never_fails (notify : notifier) now rand mobile this :
  let result := sendOTP notify now rand mobile this in
  let message :=
    "Your verification code is: " +:+ generateOTP rand +:+
    ". It will expire in 5 minutes." in
  result.1.1 = Return tt /\
  result.1.2 = (generateUniqueOTP now rand mobile this).1.2 /\
  otpStore result.1.2 !! mobile =
    Some {| otp := generateOTP rand; expiresAt := now + OTP_TTL |} /\
  match (notify mobile message).1 with
  | Return _ => True
  | Throw err =>
      last result.2 =
        Some (Console (Error "[OTP Service] Failed to send OTP via SMS:" err))
  end /\
  (forall mailService phoneNumber text,
     (sendSms mailService phoneNumber text).1 = Return true).
Proof.
  intros result message. subst result.
  rewrite sendOTP_result. cbn [fst snd otpStore].
  split; [done |]. split; [done |].
  split; [apply lookup_insert_eq |]. split.
  - unfold sendOTP, generateUniqueOTP. fold message.
    destruct (notify mobile message) as [[ok | err] sent]; [done |].
    cbn [fst snd]. rewrite app_comm_cons, app_assoc. apply last_snoc.
  - intros [send |] phoneNumber text; cbn [sendSms]; [| done].
    by destruct (send _).
Qed.

(** C6 (issuance postcondition and frame).  Every [sendOTP] for [mobile]
    performs exactly one store mutation, the [set] of the record of
    [mobile] to the freshly generated code with
    [expiresAt = now + 5 minutes]; afterwards the store maps [mobile] to
    that record and every other destination to what it had before. *)
Theorem issuance_sets_one_record (notify : notifier) now rand mobile this :
  let result := sendOTP notify now rand mobile this in
  let record := {| otp := generateOTP rand; expiresAt := now + 300000 |} in
  store_mutations result.2 = [MapSet mobile record] /\
  otpStore result.1.2 = <[mobile := record]> (otpStore this) /\
  otpStore result.1.2 !! mobile = Some record /\
  (forall other, other <> mobile ->
     otpStore result.1.2 !! other = otpStore this !! other).
Proof.
  intros result record. subst result.
  change 300000 with OTP_TTL in record. subst record.
  rewrite sendOTP_mutations, sendOTP_store.
  split; [done |]. split; [done |].
  split; [apply lookup_insert_eq |].
  intros other Hne. by apply lookup_insert_ne.
Qed.

Lemma issuance_sets_one_record_witness :
  let before := (sendOTP (sendSms None) 0 rand_half "5550001" otpService).1.2 in
  let result := sendOTP (sendSms None) 7 rand_quarter "5550002" before in
  store_mutations result.2 =
    [MapSet "5550002" {| otp := "325000"; expiresAt := 300007 |}] /\
  otpStore result.1.2 !! "5550001" = otpStore before !! "5550001".
Proof.
  intros before result.
  destruct (issuance_sets_one_record (sendSms None) 7 rand_quarter "5550002" before)
    as (Hone & _ & _ & Hframe).
  split; [exact Hone |].
  apply Hframe. discriminate.
Defined.

(** ** Invariants of the reachable states *)

Lemma filter_key_absent {A} (l : list (string * A)) key :
  key ∉ l.*1 -> filter (fun entry => entry.1 = key) l = [].
Proof.
  induction l as [| [k a] l IH]; [done |].
  rewrite fmap_cons, not_elem_of_cons. intros [Hne Hnotin].
  rewrite filter_cons_False by (cbn in *; congruence). by apply IH.
Qed.

Lemma filter_key_NoDup {A} (l : list (string * A)) key :
  NoDup l.*1 -> (length (filter (fun entry => entry.1 = key) l) <= 1)%nat.
Proof.
  induction l as [| [k a] l IH]; [cbn; lia |].
  rewrite fmap_cons, NoDup_cons. intros [Hnotin Hnodup].
  destruct (decide (k = key)) as [-> | Hne].
  - rewrite filter_cons_True by done.
    rewrite filter_key_absent by done. cbn. lia.
  - rewrite filter_cons_False by (cbn in *; congruence). by apply IH.
Qed.

Lemma records_for_lookup mobile this record :
  otpStore this !! mobile = Some record ->
  records_for mobile this = [(mobile, record)].
Proof.
  intros Hrec. unfold records_for, entries.
  pose proof (NoDup_fst_map_to_list (otpStore this)) as Hnodup.
  assert (Hin : (mobile, record) ∈ map_to_list (otpStore this))
    by by apply elem_of_map_to_list.
  induction (map_to_list (otpStore this)) as [| [k r] l IH]; [by inversion Hin |].
  rewrite fmap_cons, NoDup_cons in Hnodup. destruct Hnodup as [Hnotin Hnodup].
  destruct (decide (k = mobile)) as [-> | Hne].
  - rewrite filter_cons_True by done.
    rewrite filter_key_absent by done.
    apply elem_of_cons in Hin as [Heq | Hin]; [congruence |].
    exfalso. apply Hnotin. apply (list_elem_of_fmap_2 fst) in Hin. exact Hin.
  - rewrite filter_cons_False by (cbn in *; congruence).
    apply elem_of_cons in Hin as [Heq | Hin]; [congruence |].
    by apply IH.
Qed.

Lemma entries_functional this mobile r1 r2 :
  (mobile, r1) ∈ entries this -> (mobile, r2) ∈ entries this -> r1 = r2.
Proof.
  unfold entries. rewrite !elem_of_map_to_list. congruence.
Qed.

(** C8 (one record per destination, last write wins).  In every reachable
    state the store holds at most one record for each destination: its
    entries list no key twice, and two entries for one destination are the
    same record.  After two [sendOTP] for the same [mobile] that generated
    different codes, the second code verifies (before its expiry) and the
    first does not (at any time): the second [set] replaced the first
    record. *)
Theorem last_write_wins :
  (forall this, reachable this ->
     forall mobile,
       (length (records_for mobile this) <= 1)%nat /\
       NoDup (entries this).*1 /\
       forall r1 r2,
         (mobile, r1) ∈ entries this -> (mobile, r2) ∈ entries this -> r1 = r2) /\
  (forall (notify1 notify2 : notifier) t1 t2 rand1 rand2 mobile this t3 t4,
     let c1 := generateOTP rand1 in
     let c2 := generateOTP rand2 in
     let twice :=
       (sendOTP notify2 t2 rand2 mobile
          (sendOTP notify1 t1 rand1 mobile this).1.2).1.2 in
     c1 <> c2 ->
     t3 <= t2 + OTP_TTL ->
     otpStore twice !! mobile = Some {| otp := c2; expiresAt := t2 + OTP_TTL |} /\
     records_for mobile twice = [(mobile, {| otp := c2; expiresAt := t2 + OTP_TTL |})] /\
     (verifyOTP t3 mobile c2 twice).1.1 = true /\
     (verifyOTP t4 mobile c1 twice).1.1 = false).
Proof.
  split.
  - intros this _ mobile. split; [| split].
    + apply filter_key_NoDup, NoDup_fst_map_to_list.
    + apply NoDup_fst_map_to_list.
    + apply entries_functional.
  - intros notify1 notify2 t1 t2 rand1 rand2 mobile this t3 t4 c1 c2 twice
      Hdiff Hlive.
    pose proof (sendOTP_lookup notify2 t2 rand2 mobile
                  (sendOTP notify1 t1 rand1 mobile this).1.2) as Hrec.
    fold twice c2 in Hrec.
    split; [exact Hrec |]. split; [by apply records_for_lookup |]. split.
    + by erewrite verifyOTP_match.
    + destruct (Z.lt_ge_cases (t2 + OTP_TTL) t4).
      * by erewrite verifyOTP_expired.
      * erewrite verifyOTP_mismatch; [done | exact Hrec | done |].
        cbn [otp]. congruence.
Qed.

Lemma last_write_wins_witness :
  let first := step (CallSendOTP (sendSms None) 0 rand_half "5550001") otpService in
  let twice := step (CallSendOTP (sendSms None) 5 rand_quarter "5550001") first in
  (length (records_for "5550001" twice) <= 1)%nat /\
  (verifyOTP 10 "5550001" "325000" twice).1.1 = true /\
  (verifyOTP 10 "5550001" "550000" twice).1.1 = false.
Proof.
  intros first twice.
  destruct last_write_wins as [Hone Hlast].
  destruct (Hone twice) with (mobile := "5550001") as (Hcount & _).
  { subst twice first. do 2 apply reachable_step. apply reachable_init. }
  destruct (Hlast (sendSms None) (sendSms None) 0 5 rand_half rand_quarter
              "5550001" otpService 10 10) as (_ & _ & Hnew & Hold).
  - vm_compute. discriminate.
  - vm_compute. discriminate.
  - split; [exact Hcount |]. split; [exact Hnew | exact Hold].
Defined.

(** ** The development accessor *)

Lemma run_latest cs : forall this,
  getLatestOtpForDevelopment (run cs this) =
    last_generated cs (getLatestOtpForDevelopment this).
Proof.
  induction cs as [| c cs IH]; intros this; [done |].
  cbn [run fold_left]. fold (run cs (step c this)). rewrite IH.
  destruct c as [notify now rand mobile | now mobile candidate]; cbn [step last_generated].
  - by rewrite sendOTP_result.
  - unfold getLatestOtpForDevelopment. by rewrite verifyOTP_latestOtp.
Qed.

Lemma last_generated_verify_only cs before :
  forallb is_verify cs = true -> last_generated cs before = before.
Proof.
  induction cs as [| [notify now rand mobile | now mobile candidate] cs IH];
    cbn; [done | done | exact IH].
Qed.

(** C9 (development accessor).  After any sequence of calls on the fresh
    service, [getLatestOtpForDevelopment] returns the code generated by the
    last [sendOTP] of the sequence, whatever destination that call and the
    others were for; it returns [null] on the fresh service and as long as
    no [sendOTP] has been made. *)
Theorem accessor_returns_last_generated :
  (forall cs,
     getLatestOtpForDevelopment (run cs otpService) = last_generated cs None) /\
  (forall cs notify now rand mobile,
     getLatestOtpForDevelopment
       (run (cs ++ [CallSendOTP notify now rand mobile]) otpService) =
     Some (generateOTP rand)) /\
  getLatestOtpForDevelopment otpService = None /\
  (forall cs, forallb is_verify cs = true ->
     getLatestOtpForDevelopment (run cs otpService) = None).
Proof.
  split; [intros cs; apply run_latest |].
  split.
  - intros cs notify now rand mobile. unfold run.
    rewrite fold_left_app. cbn [fold_left step].
    unfold getLatestOtpForDevelopment. by rewrite sendOTP_result.
  - split; [done |]. intros cs Hverify.
    rewrite run_latest. by apply last_generated_verify_only.
Qed.

Lemma accessor_returns_last_generated_witness :
  getLatestOtpForDevelopment
    (run [CallVerifyOTP 0 "5550001" "123456"; CallVerifyOTP 1 "5550002" "654321"]
         otpService) = None.
Proof.
  destruct accessor_returns_last_generated as (_ & _ & _ & Hnone).
  apply Hnone. reflexivity.
Defined.

(** C10 ([verifyOTP] leaves the latest code alone).  No [verifyOTP] changes
    what [getLatestOtpForDevelopment] returns; in particular, after a code
    has been issued and consumed by a successful [verifyOTP], the accessor
    still returns that code. *)
Theorem verify_keeps_latest :
  (forall now mobile candidate this,
     getLatestOtpForDevelopment (verifyOTP now mobile candidate this).1.2 =
       getLatestOtpForDevelopment this) /\
  (forall (notify : notifier) t0 rand mobile this t1,
     let code := generateOTP rand in
     let issued := (sendOTP notify t0 rand mobile this).1.2 in
     let result := verifyOTP t1 mobile code issued in
     t1 <= t0 + OTP_TTL ->
     result.1.1 = true /\
     otpStore result.1.2 !! mobile = None /\
     getLatestOtpForDevelopment issued = Some code /\
     getLatestOtpForDevelopment result.1.2 = Some code).
Proof.
  split.
  - intros. apply verifyOTP_latestOtp.
  - intros notify t0 rand mobile this t1 code issued result Hlive.
    assert (Hlatest : getLatestOtpForDevelopment issued = Some code).
    { subst issued. unfold getLatestOtpForDevelopment.
      by rewrite sendOTP_result. }
    subst result. unfold getLatestOtpForDevelopment at 2.
    rewrite verifyOTP_latestOtp.
    erewrite verifyOTP_match; [| apply sendOTP_lookup | done | done].
    cbn [fst snd otpStore].
    split; [done |]. split; [apply lookup_delete_eq |]. by split.
Qed.

Lemma verify_keeps_latest_witness :
  let issued := (sendOTP (sendSms None) 0 rand_half "5550001" otpService).1.2 in
  let result := verifyOTP 10 "5550001" "550000" issued in
  result.1.1 = true /\
  otpStore result.1.2 !! "5550001" = None /\
  getLatestOtpForDevelopment issued = Some "550000" /\
  getLatestOtpForDevelopment result.1.2 = Some "550000".
Proof.
  destruct verify_keeps_latest as [_ Hkeep].
  apply (Hkeep (sendSms None) 0 rand_half "5550001" otpService 10).
  vm_compute. discriminate.
Defined.

(** * Further properties of the service *)

(** ** Records come from [sendOTP] only *)

Lemma verifyOTP_store now mobile candidate this :
  otpStore (verifyOTP now mobile candidate this).1.2 = otpStore this \/
  otpStore (verifyOTP now mobile candidate this).1.2 =
    delete mobile (otpStore this).
Proof.
  pose proof (verifyOTP_effect now mobile candidate this) as Heff.
  destruct (verifyOTP now mobile candidate this) as [[[] after] evs];
    cbn [fst snd]; destruct Heff as [_ Hst]; [by right | left; by subst].
Qed.

(** The outcome of [verifyOTP] for [mobile] is read off the record of
    [mobile] alone. *)
Lemma verifyOTP_result_lookup now mobile candidate this other :
  otpStore this !! mobile = otpStore other !! mobile ->
  (verifyOTP now mobile candidate this).1.1 =
    (verifyOTP now mobile candidate other).1.1.
Proof.
  unfold verifyOTP. intros <-.
  destruct (otpStore this !! mobile) as [record |]; [| done].
  destruct (expiresAt record <? now); [done |].
  by destruct (bool_decide (otp record = candidate)).
Qed.

Lemma step_other_lookup c mobile this :
  call_mobile c <> mobile ->
  otpStore (step c this) !! mobile = otpStore this !! mobile.
Proof.
  intros Hne. destruct c as [notify now rand target | now target candidate];
    cbn [step call_mobile] in *.
  - rewrite sendOTP_store. by apply lookup_insert_ne.
  - destruct (verifyOTP_store now target candidate this) as [-> | ->];
      [done | by apply lookup_delete_ne].
Qed.

Lemma step_keeps_absent c mobile this :
  sends_to mobile c = false ->
  otpStore this !! mobile = None ->
  otpStore (step c this) !! mobile = None.
Proof.
  intros Hsend Habsent.
  destruct c as [notify now rand target | now target candidate];
    cbn [step sends_to] in *.
  - apply bool_decide_eq_false in Hsend.
    rewrite sendOTP_store. by rewrite lookup_insert_ne.
  - destruct (verifyOTP_store now target candidate this) as [-> | ->];
      [done |].
    destruct (decide (target = mobile)) as [-> | Hne];
      [apply lookup_delete_eq | by rewrite lookup_delete_ne].
Qed.

Lemma run_keeps_absent cs mobile : forall this,
  forallb (fun c => negb (sends_to mobile c)) cs = true ->
  otpStore this !! mobile = None ->
  otpStore (run cs this) !! mobile = None.
Proof.
  induction cs as [| c cs IH]; intros this Hcs Habsent; [done |].
  cbn [forallb] in Hcs. apply andb_true_iff in Hcs as [Hc Hcs].
  apply negb_true_iff in Hc.
  cbn [run fold_left]. apply IH; [done |]. by apply step_keeps_absent.
Qed.

(** X1.  A destination for which no [sendOTP] was made never verifies:
    after any calls on the fresh service among which there is no [sendOTP]
    for [mobile], the store has no record for [mobile] and [verifyOTP] for
    it returns [false], whatever the candidate and the time, and changes
    nothing. *)
Theorem never_requested_never_verifies cs mobile now candidate :
  forallb (fun c => negb (sends_to mobile c)) cs = true ->
  otpStore (run cs otpService) !! mobile = None /\
  verifyOTP now mobile candidate (run cs otpService) =
    (false, run cs otpService, []).
Proof.
  intros Hcs.
  assert (Habsent : otpStore (run cs otpService) !! mobile = None)
    by by apply run_keeps_absent.
  split; [exact Habsent | by apply verifyOTP_absent].
Qed.

Lemma never_requested_never_verifies_witness :
  let cs := [CallSendOTP (sendSms None) 0 rand_half "5550001";
             CallVerifyOTP 5 "5550002" "550000"] in
  otpStore (run cs otpService) !! "5550002" = None /\
  verifyOTP 10 "5550002" "550000" (run cs otpService) =
    (false, run cs otpService, []).
Proof.
  intros cs.
  apply (never_requested_never_verifies cs "5550002" 10 "550000").
  reflexivity.
Defined.

(** X2.  A consumed code stays consumed: once [verifyOTP] has succeeded for
    [mobile], every later [verifyOTP] for [mobile] returns [false], with
    the consumed code as with any other, whatever calls come in between, as
    long as none of them is a [sendOTP] for [mobile]. *)
Theorem consumed_code_never_verifies_again
    this mobile record now cs later candidate :
  otpStore this !! mobile = Some record ->
  now <= expiresAt record ->
  forallb (fun c => negb (sends_to mobile c)) cs = true ->
  let consumed := verifyOTP now mobile (otp record) this in
  consumed.1.1 = true /\
  (verifyOTP later mobile candidate (run cs consumed.1.2)).1.1 = false.
Proof.
  intros Hrec Hlive Hcs consumed. subst consumed.
  erewrite verifyOTP_match by eauto. cbn [fst snd].
  split; [done |].
  rewrite verifyOTP_absent; [done |].
  apply run_keeps_absent; [done |]. cbn [otpStore]. apply lookup_delete_eq.
Qed.

Lemma consumed_code_never_verifies_again_witness :
  let issued := (sendOTP (sendSms None) 0 rand_half "5550001" otpService).1.2 in
  let cs := [CallSendOTP (sendSms None) 20 rand_half "5550002";
             CallVerifyOTP 30 "5550001" "000000"] in
  (verifyOTP 40 "5550001" "550000"
     (run cs (verifyOTP 10 "5550001" "550000" issued).1.2)).1.1 = false.
Proof.
  intros issued cs.
  destruct (consumed_code_never_verifies_again issued "5550001"
              {| otp := "550000"; expiresAt := 300000 |} 10 cs 40 "550000")
    as [_ Hagain].
  - subst issued. rewrite sendOTP_lookup. reflexivity.
  - simpl. lia.
  - reflexivity.
  - exact Hagain.
Defined.

(** X3.  No limit on failed attempts: any number of [verifyOTP] for
    [mobile] with candidates other than the stored code, made at any times,
    leaves the whole state as it was, so that the stored code still
    verifies afterwards, before its expiry. *)
Theorem wrong_attempts_are_unlimited
    this mobile record (attempts : list (Z * string)) now :
  otpStore this !! mobile = Some record ->
  Forall (fun attempt => attempt.2 <> otp record) attempts ->
  now <= expiresAt record ->
  let after :=
    run (List.map (fun attempt => CallVerifyOTP attempt.1 mobile attempt.2)
                  attempts) this in
  after = this /\
  (verifyOTP now mobile (otp record) after).1.1 = true.
Proof.
  intros Hrec Hwrong Hlive after.
  assert (Hsame : after = this).
  { subst after. induction Hwrong as [| [t guess] attempts Hne _ IH]; [done |].
    cbn [List.map run fold_left step]. cbn [fst snd] in *.
    destruct (Z.lt_ge_cases (expiresAt record) t).
    - by erewrite verifyOTP_expired by eauto.
    - by erewrite verifyOTP_mismatch by eauto. }
  split; [exact Hsame |]. rewrite Hsame.
  by erewrite verifyOTP_match by eauto.
Qed.

Lemma wrong_attempts_are_unlimited_witness :
  let issued := (sendOTP (sendSms None) 0 rand_half "5550001" otpService).1.2 in
  let after :=
    run [CallVerifyOTP 1 "5550001" "000000"; CallVerifyOTP 2 "5550001" "000001";
         CallVerifyOTP 3 "5550001" "abc"] issued in
  after = issued /\ (verifyOTP 4 "5550001" "550000" after).1.1 = true.
Proof.
  intros issued.
  apply (wrong_attempts_are_unlimited issued "5550001"
           {| otp := "550000"; expiresAt := 300000 |}
           [(1, "000000"); (2, "000001"); (3, "abc")] 4).
  - subst issued. rewrite sendOTP_lookup. reflexivity.
  - repeat constructor; discriminate.
  - simpl. lia.
Defined.

(** ** Destinations do not interfere *)

(** X4.  A call for one destination, [sendOTP] or [verifyOTP], leaves the
    record of every other destination as it was, and with it the outcome of
    a [verifyOTP] for that other destination. *)
Theorem other_destination_untouched c mobile now candidate this :
  call_mobile c <> mobile ->
  otpStore (step c this) !! mobile = otpStore this !! mobile /\
  (verifyOTP now mobile candidate (step c this)).1.1 =
    (verifyOTP now mobile candidate this).1.1.
Proof.
  intros Hne.
  pose proof (step_other_lookup c mobile this Hne) as Hsame.
  split; [exact Hsame | by apply verifyOTP_result_lookup].
Qed.

Lemma other_destination_untouched_witness :
  let issued := (sendOTP (sendSms None) 0 rand_half "5550001" otpService).1.2 in
  (verifyOTP 10 "5550001" "550000"
     (step (CallSendOTP (sendSms None) 5 rand_half "5550002") issued)).1.1 =
  (verifyOTP 10 "5550001" "550000" issued).1.1.
Proof.
  intros issued.
  apply (other_destination_untouched
           (CallSendOTP (sendSms None) 5 rand_half "5550002")
           "5550001" 10 "550000" issued).
  discriminate.
Defined.

(** The state [verifyOTP] leaves: the record of [mobile] is gone when it
    returned [true], nothing has changed when it returned [false]. *)
Lemma verifyOTP_state now mobile candidate this :
  (verifyOTP now mobile candidate this).1.2 =
    if (verifyOTP now mobile candidate this).1.1
    then {| otpStore := delete mobile (otpStore this);
            latestOtp := latestOtp this;
            latestMobile := latestMobile this |}
    else this.
Proof.
  unfold verifyOTP.
  destruct (otpStore this !! mobile) as [record |]; [| done].
  destruct (expiresAt record <? now); [done |].
  by destruct (bool_decide (otp record = candidate)).
Qed.

(** X5.  Two [verifyOTP] for different destinations commute: each returns
    what it returns when made first, and the final state is the same in
    both orders. *)
Theorem verifies_commute t1 d1 c1 t2 d2 c2 this :
  d1 <> d2 ->
  let first := verifyOTP t1 d1 c1 this in
  let second := verifyOTP t2 d2 c2 this in
  (verifyOTP t2 d2 c2 first.1.2).1.1 = second.1.1 /\
  (verifyOTP t1 d1 c1 second.1.2).1.1 = first.1.1 /\
  (verifyOTP t2 d2 c2 first.1.2).1.2 = (verifyOTP t1 d1 c1 second.1.2).1.2.
Proof.
  intros Hne first second.
  assert (H21 : (verifyOTP t2 d2 c2 first.1.2).1.1 = second.1.1).
  { apply verifyOTP_result_lookup.
    apply (step_other_lookup (CallVerifyOTP t1 d1 c1) d2 this). done. }
  assert (H12 : (verifyOTP t1 d1 c1 second.1.2).1.1 = first.1.1).
  { apply verifyOTP_result_lookup.
    apply (step_other_lookup (CallVerifyOTP t2 d2 c2) d1 this). done. }
  split; [exact H21 |]. split; [exact H12 |].
  rewrite (verifyOTP_state t2 d2 c2 first.1.2), H21.
  rewrite (verifyOTP_state t1 d1 c1 second.1.2), H12.
  subst first second.
  rewrite (verifyOTP_state t1 d1 c1 this), (verifyOTP_state t2 d2 c2 this).
  destruct (verifyOTP t1 d1 c1 this).1.1, (verifyOTP t2 d2 c2 this).1.1;
    cbn [otpStore latestOtp latestMobile]; try done.
  f_equal. apply delete_delete.
Qed.

Lemma verifies_commute_witness :
  let one := (sendOTP (sendSms None) 0 rand_half "5550001" otpService).1.2 in
  let both := (sendOTP (sendSms None) 0 rand_quarter "5550002" one).1.2 in
  (verifyOTP 2 "5550002" "325000" (verifyOTP 1 "5550001" "550000" both).1.2).1.2 =
  (verifyOTP 1 "5550001" "550000" (verifyOTP 2 "5550002" "325000" both).1.2).1.2.
Proof.
  intros one both.
  apply (verifies_commute 1 "5550001" "550000" 2 "5550002" "325000" both).
  discriminate.
Defined.

(** ** The validity window *)

(** X6.  Validity is a window that closes: if [verifyOTP] returns [true] at
    some time it returns [true] at every earlier time (the state and the
    candidate being the same), and once [sendOTP] has issued a code at time
    [t0], [verifyOTP] with that code returns [true] exactly at the times
    [t <= t0 + 300000]. *)
Theorem validity_window :
  (forall t t' mobile candidate this,
     (verifyOTP t mobile candidate this).1.1 = true ->
     t' <= t ->
     (verifyOTP t' mobile candidate this).1.1 = true) /\
  (forall (notify : notifier) t0 rand mobile this t,
     let issued := (sendOTP notify t0 rand mobile this).1.2 in
     (verifyOTP t mobile (generateOTP rand) issued).1.1 = true <->
     t <= t0 + 300000).
Proof.
  split.
  - intros t t' mobile candidate this Hok Hle. unfold verifyOTP in *.
    destruct (otpStore this !! mobile) as [record |]; [| done].
    destruct (Z.ltb_spec (expiresAt record) t); [done |].
    destruct (Z.ltb_spec (expiresAt record) t'); [lia | done].
  - intros notify t0 rand mobile this t issued.
    pose proof (sendOTP_lookup notify t0 rand mobile this) as Hrec.
    fold issued in Hrec. change 300000 with OTP_TTL.
    destruct (Z.le_gt_cases t (t0 + OTP_TTL)) as [Hle | Hgt].
    + by erewrite verifyOTP_match by eauto.
    + erewrite verifyOTP_expired by eauto. cbn [fst]. split; [done | lia].
Qed.

Lemma validity_window_witness :
  let issued := (sendOTP (sendSms None) 0 rand_half "5550001" otpService).1.2 in
  (verifyOTP 7 "5550001" "550000" issued).1.1 = true.
Proof.
  intros issued.
  apply (proj1 validity_window 300000 7 "5550001" "550000" issued);
    [| lia].
  apply (proj2 validity_window (sendSms None) 0 rand_half "5550001"
           otpService 300000).
  lia.
Defined.

(** ** Invariants of the reachable states *)

(** X7.  The two fields kept for development go together and agree with
    the store: in every reachable state [latestOtp] is [null] exactly when
    [latestMobile] is, and when the destination in [latestMobile] still has
    a record, the code of that record is the one in [latestOtp]. *)
Theorem latest_fields_consistent this :
  reachable this ->
  (latestOtp this = None <-> latestMobile this = None) /\
  (forall mobile record,
     latestMobile this = Some mobile ->
     otpStore this !! mobile = Some record ->
     latestOtp this = Some (otp record)).
Proof.
  induction 1 as [| c s Hreach [IHnone IHrec]]; [done |].
  destruct c as [notify now rand target | now target candidate]; cbn [step].
  - rewrite sendOTP_result. cbn [snd otpStore latestOtp latestMobile].
    split; [done |]. intros mobile record [= <-].
    rewrite lookup_insert_eq. by intros [= <-].
  - rewrite verifyOTP_state.
    destruct (verifyOTP now target candidate s).1.1;
      cbn [otpStore latestOtp latestMobile]; [| done].
    split; [done |]. intros mobile record Hlatest Hrec.
    apply lookup_delete_Some in Hrec as [_ Hrec]. eauto.
Qed.

Lemma latest_fields_consistent_witness :
  let this :=
    step (CallVerifyOTP 9 "5550002" "000000")
      (step (CallSendOTP (sendSms None) 0 rand_half "5550001") otpService) in
  latestOtp this = Some "550000".
Proof.
  intros this.
  apply (proj2 (latest_fields_consistent this
                  ltac:(do 2 apply reachable_step; apply reachable_init))
           "5550001" {| otp := "550000"; expiresAt := 300000 |});
    reflexivity.
Defined.

Lemma generateOTP_well_formed rand :
  is_random rand -> well_formed_code (generateOTP rand).
Proof.
  intros Hrand. unfold well_formed_code, generateOTP.
  pose proof (generate_range rand Hrand) as Hrange.
  set (n := Math_floor _) in *.
  split; [by apply Number_toString_six |].
  split; [apply digits_of_all_digits; [lia | done] |].
  rewrite Number_toString_value; lia.
Qed.

(** X8.  Only well-formed codes are ever stored: after any calls on the
    fresh service whose [Math.random()] values are binary64 numbers in
    [0, 1), the code of every record in the store, and the code the
    development accessor returns, is a string of 6 digits spelling a
    number from 100000 to 999999. *)
Theorem stored_codes_well_formed cs :
  Forall valid_call cs ->
  (forall mobile record,
     otpStore (run cs otpService) !! mobile = Some record ->
     well_formed_code (otp record)) /\
  (forall code,
     getLatestOtpForDevelopment (run cs otpService) = Some code ->
     well_formed_code code).
Proof.
  intros Hvalid.
  cut (forall this,
         ((forall mobile record,
             otpStore this !! mobile = Some record ->
             well_formed_code (otp record)) /\
          (forall code, latestOtp this = Some code -> well_formed_code code)) ->
         (forall mobile record,
            otpStore (run cs this) !! mobile = Some record ->
            well_formed_code (otp record)) /\
         (forall code,
            latestOtp (run cs this) = Some code -> well_formed_code code)).
  { intros Hgen. apply Hgen. split; [| done].
    intros mobile record. cbn [otpService otpStore]. by rewrite lookup_empty. }
  induction Hvalid as [| c cs Hc _ IH]; intros this [Hstore Hlatest]; [done |].
  cbn [run fold_left]. apply IH.
  destruct c as [notify now rand target | now target candidate];
    cbn [step valid_call] in *.
  - rewrite sendOTP_result. cbn [snd otpStore latestOtp]. split.
    + intros mobile record.
      destruct (decide (target = mobile)) as [-> | Hne].
      * rewrite lookup_insert_eq. intros [= <-].
        by apply generateOTP_well_formed.
      * rewrite lookup_insert_ne by done. apply Hstore.
    + intros code [= <-]. by apply generateOTP_well_formed.
  - rewrite verifyOTP_state.
    destruct (verifyOTP now target candidate this).1.1;
      cbn [otpStore latestOtp]; [| done].
    split; [| done]. intros mobile record Hrec.
    apply lookup_delete_Some in Hrec as [_ Hrec]. eauto.
Qed.

Lemma stored_codes_well_formed_witness :
  let cs := [CallSendOTP (sendSms None) 0 rand_half "5550001";
             CallVerifyOTP 4 "5550001" "000000";
             CallSendOTP (sendSms None) 8 rand_max "5550002"] in
  well_formed_code "550000" /\ well_formed_code "999999".
Proof.
  intros cs.
  destruct (stored_codes_well_formed cs ltac:(repeat constructor))
    as [Hstore Hlatest].
  split.
  - apply (Hstore "5550001" {| otp := "550000"; expiresAt := 300000 |}).
    reflexivity.
  - apply (Hlatest "999999"). reflexivity.
Defined.

(** ** The development endpoint and the registration form *)

Lemma well_formed_code_accepted code :
  well_formed_code code -> otp_field_rejected (Some code) = false.
Proof.
  intros (Hlen & _ & _). destruct code as [| c code]; [done |].
  cbn [otp_field_rejected]. by rewrite Hlen.
Qed.

(** The form does not turn a generated code away: it fills its field with
    it and the guard of its [verifyOtp] lets it through. *)
Lemma generated_code_passes_form_guard rand field :
  is_random rand ->
  let response :=
    {| status := 200; otp_json := Some (generateOTP rand) |} in
  autofill_otp field response = Some (generateOTP rand) /\
  otp_field_rejected (autofill_otp field response) = false.
Proof.
  intros Hrand response.
  pose proof (generateOTP_well_formed rand Hrand) as Hcode.
  assert (Hfill : autofill_otp field response = Some (generateOTP rand)).
  { unfold autofill_otp, response. cbn [otp_json].
    destruct Hcode as (Hlen & _). by destruct (generateOTP rand). }
  split; [exact Hfill |]. rewrite Hfill. by apply well_formed_code_accepted.
Qed.

(** X9.  The development endpoint hands out a working code: right after a
    [sendOTP] for [mobile], it answers 200 with the code just generated,
    the form fills its field with it, and a [verifyOTP] for [mobile] with
    the content of the field returns [true] until the code expires. *)
Theorem development_endpoint_code_verifies
    (notify : notifier) t0 rand mobile this t field :
  is_random rand ->
  t <= t0 + OTP_TTL ->
  let issued := (sendOTP notify t0 rand mobile this).1.2 in
  let response := development_get_latest_otp issued in
  status response = 200 /\
  exists code,
    autofill_otp field response = Some code /\
    otp_field_rejected (Some code) = false /\
    (verifyOTP t mobile code issued).1.1 = true.
Proof.
  intros Hrand Hlive issued response.
  split; [done |]. exists (generateOTP rand).
  assert (Hresp : response =
                  {| status := 200; otp_json := Some (generateOTP rand) |}).
  { subst response issued. unfold development_get_latest_otp,
      getLatestOtpForDevelopment. by rewrite sendOTP_result. }
  rewrite Hresp.
  destruct (generated_code_passes_form_guard rand field Hrand) as [Hfill Hok].
  split; [exact Hfill |]. split; [by rewrite Hfill in Hok |].
  subst issued. by erewrite verifyOTP_match; [| apply sendOTP_lookup | |].
Qed.

Lemma development_endpoint_code_verifies_witness :
  let issued := (sendOTP (sendSms None) 0 rand_half "5550001" otpService).1.2 in
  exists code,
    autofill_otp (Some "") (development_get_latest_otp issued) = Some code /\
    otp_field_rejected (Some code) = false /\
    (verifyOTP 500 "5550001" code issued).1.1 = true.
Proof.
  intros issued.
  apply (development_endpoint_code_verifies (sendSms None) 0 rand_half
           "5550001" otpService 500 (Some "")).
  - repeat split.
  - vm_compute. discriminate.
Defined.

(** X10.  The development endpoint is not scoped to a destination: when a
    [sendOTP] for another destination, generating another code, comes
    between the [sendOTP] for [mobile] and the request to the endpoint, the
    endpoint answers with the other code, which does not verify for
    [mobile], while the code issued for [mobile] still does. *)
Theorem development_endpoint_shows_other_code
    (notify notify' : notifier) t0 t1 rand rand' mobile other this t :
  other <> mobile ->
  generateOTP rand' <> generateOTP rand ->
  t <= t0 + OTP_TTL ->
  let state :=
    (sendOTP notify' t1 rand' other
       (sendOTP notify t0 rand mobile this).1.2).1.2 in
  otp_json (development_get_latest_otp state) = Some (generateOTP rand') /\
  (verifyOTP t mobile (generateOTP rand') state).1.1 = false /\
  (verifyOTP t mobile (generateOTP rand) state).1.1 = true.
Proof.
  intros Hother Hcode Hlive state.
  assert (Hrec : otpStore state !! mobile =
                 Some {| otp := generateOTP rand; expiresAt := t0 + OTP_TTL |}).
  { subst state. rewrite sendOTP_store, lookup_insert_ne by done.
    apply sendOTP_lookup. }
  split; [| split].
  - subst state. unfold development_get_latest_otp, getLatestOtpForDevelopment.
    by rewrite sendOTP_result.
  - by erewrite verifyOTP_mismatch; [| exact Hrec | |].
  - by erewrite verifyOTP_match; [| exact Hrec | |].
Qed.

Lemma development_endpoint_shows_other_code_witness :
  let state :=
    (sendOTP (sendSms None) 3 rand_quarter "5550002"
       (sendOTP (sendSms None) 0 rand_half "5550001" otpService).1.2).1.2 in
  otp_json (development_get_latest_otp state) = Some "325000" /\
  (verifyOTP 9 "5550001" "325000" state).1.1 = false /\
  (verifyOTP 9 "5550001" "550000" state).1.1 = true.
Proof.
  intros state.
  apply (development_endpoint_shows_other_code (sendSms None) (sendSms None)
           0 3 rand_half rand_quarter "5550001" "5550002" otpService 9).
  - discriminate.
  - vm_compute. discriminate.
  - vm_compute. discriminate.
Defined.

(** ** [sendOTP] with the notifier of the repository *)

(** X11.  The [catch] of [sendOTP] is dead code with [sendSms]: whatever
    the mail service is and does, [sendSms] absorbs the failure itself, so
    [sendOTP] never prints its own failure message; what it prints first is
    always the line that shows the code in clear. *)
Theorem sendOTP_never_reports_failure mailService now rand mobile this err :
  let evs := (sendOTP (sendSms mailService) now rand mobile this).2 in
(Console (Error "[OTP Service] Failed to send OTP via SMS:" err) ∉ evs) /\
  evs !! 1%nat =
    Some (Console (Log ("[OTP Service] Sent OTP " +:+ generateOTP rand +:+
                        " to mobile " +:+ mobile))).
Proof.
  intros evs. subst evs. unfold sendOTP, generateUniqueOTP.
  destruct mailService as [send |]; cbn [sendSms].
  - destruct (send _) as [[] | failure]; cbn [snd List.map List.app];
      (split; [| done]); rewrite !not_elem_of_cons;
      repeat split; try discriminate; apply not_elem_of_nil.
  - cbn [snd List.map List.app]. split; [| done].
    rewrite !not_elem_of_cons. repeat split; try discriminate.
    apply not_elem_of_nil.
Qed.

(** * Properties of [formatPhoneNumber] *)

Lemma all_digits_cons c s :
  all_digits (String c s) = is_digit c && all_digits s.
Proof. reflexivity. Qed.

Lemma remove_non_digits_all_digits s : all_digits (remove_non_digits s) = true.
Proof.
  induction s as [| c s IH]; [done |]. cbn [remove_non_digits].
  destruct (is_digit c) eqn:Hc; [| done].
  by rewrite all_digits_cons, Hc, IH.
Qed.

Lemma remove_non_digits_id s :
  all_digits s = true -> remove_non_digits s = s.
Proof.
  induction s as [| c s IH]; [done |].
  rewrite all_digits_cons. intros [Hc Hs]%andb_true_iff.
  cbn [remove_non_digits]. by rewrite Hc, IH.
Qed.

(** A string of ten digits, character by character. *)
Lemma ten_digits s :
  String.length s = 10%nat -> all_digits s = true ->
  exists c0 c1 c2 c3 c4 c5 c6 c7 c8 c9,
    s = String c0 (String c1 (String c2 (String c3 (String c4 (String c5
          (String c6 (String c7 (String c8 (String c9 "")))))))))  /\
    Forall (fun c => is_digit c = true) [c0; c1; c2; c3; c4; c5; c6; c7; c8; c9].
Proof.
  intros Hlen Hdig.
  do 10 (destruct s as [| ? s]; [discriminate |]).
  destruct s; [| discriminate].
  repeat eexists.
  repeat (rewrite all_digits_cons in Hdig;
          apply andb_true_iff in Hdig as [? Hdig]).
  repeat constructor; done.
Qed.

Lemma formatPhoneNumber_ten s c0 c1 c2 c3 c4 c5 c6 c7 c8 c9 :
  remove_non_digits s =
    String c0 (String c1 (String c2 (String c3 (String c4 (String c5
      (String c6 (String c7 (String c8 (String c9 ""))))))))) ->
  formatPhoneNumber s =
    String c0 (String c1 (String c2 (String "-" (String c3 (String c4
      (String c5 (String "-" (String c6 (String c7 (String c8
        (String c9 ""))))))))))).
Proof.
  intros Hclean. unfold formatPhoneNumber.
  destruct s as [| c s]; [discriminate |]. by rewrite Hclean.
Qed.

Lemma formatPhoneNumber_other s :
  String.length (remove_non_digits s) <> 10%nat ->
  formatPhoneNumber s = remove_non_digits s.
Proof.
  intros Hlen. unfold formatPhoneNumber. destruct s as [| c s]; [done |].
  by apply Nat.eqb_neq in Hlen as ->.
Qed.

Ltac ten_digits_of s Hlen :=
  let Hdig := fresh "Hdig" in
  pose proof (remove_non_digits_all_digits s) as Hdig;
  destruct (ten_digits _ Hlen Hdig)
    as (c0 & c1 & c2 & c3 & c4 & c5 & c6 & c7 & c8 & c9 & Hclean & Hall);
  repeat match goal with
         | H : Forall _ (_ :: _) |- _ => apply Forall_cons in H as [? H]
         end.

(** X12.  An input with exactly ten digits, however it is punctuated, is
    put out as [ddd-ddd-dddd]: 12 characters, with a dash at positions 3 and
    7 and nowhere else. *)
Theorem formatPhoneNumber_ten_digits s :
  String.length (remove_non_digits s) = 10%nat ->
  String.length (formatPhoneNumber s) = 12%nat /\
  forall i,
    String.get i (formatPhoneNumber s) = Some "-"%char <->
    i = 3%nat \/ i = 7%nat.
Proof.
  intros Hlen. ten_digits_of s Hlen.
  rewrite (formatPhoneNumber_ten s _ _ _ _ _ _ _ _ _ _ Hclean).
  split; [reflexivity |].
  intros i. split.
  - do 12 (destruct i as [| i]; [cbn; first [by auto | intros [= ->]; done] |]).
    done.
  - by intros [-> | ->].
Qed.

Lemma formatPhoneNumber_ten_digits_witness :
  String.length (formatPhoneNumber "(555) 123-4567") = 12%nat /\
  String.get 3 (formatPhoneNumber "(555) 123-4567") = Some "-"%char.
Proof.
  destruct (formatPhoneNumber_ten_digits "(555) 123-4567") as [Hlen Hdash];
    [reflexivity |].
  split; [exact Hlen |]. apply Hdash. by left.
Defined.

(** X13.  [formatPhoneNumber] only drops and punctuates: the digits of its
    output are the digits of its input, in the same order, and every
    character it puts out is a digit or a dash. *)
Theorem formatPhoneNumber_keeps_digits s :
  remove_non_digits (formatPhoneNumber s) = remove_non_digits s /\
  forallb is_digit_or_dash (list_ascii_of_string (formatPhoneNumber s)) = true.
Proof.
  destruct (decide (String.length (remove_non_digits s) = 10%nat))
    as [Hlen | Hlen].
  - ten_digits_of s Hlen.
    rewrite (formatPhoneNumber_ten s _ _ _ _ _ _ _ _ _ _ Hclean), Hclean.
    unfold is_digit_or_dash. cbn.
    repeat match goal with H : is_digit _ = true |- _ => rewrite H; clear H end.
    done.
  - rewrite formatPhoneNumber_other by done.
    pose proof (remove_non_digits_all_digits s) as Hdig.
    split; [by apply remove_non_digits_id |].
    unfold all_digits in Hdig. unfold is_digit_or_dash.
    eapply forallb_forall. intros c Hc.
    eapply forallb_forall in Hdig; [| exact Hc]. by rewrite Hdig.
Qed.

(** X14.  [formatPhoneNumber] is idempotent: formatting a formatted number
    changes nothing. *)
Theorem formatPhoneNumber_idempotent s :
  formatPhoneNumber (formatPhoneNumber s) = formatPhoneNumber s.
Proof.
  destruct (decide (String.length (remove_non_digits s) = 10%nat))
    as [Hlen | Hlen].
  - ten_digits_of s Hlen.
    rewrite (formatPhoneNumber_ten s _ _ _ _ _ _ _ _ _ _ Hclean).
    apply formatPhoneNumber_ten. cbn.
    repeat match goal with H : is_digit _ = true |- _ => rewrite H; clear H end.
    done.
  - rewrite (formatPhoneNumber_other s) by done.
    pose proof (remove_non_digits_id _ (remove_non_digits_all_digits s)) as Hid.
    rewrite formatPhoneNumber_other; rewrite Hid; done.
Qed.

(** X15.  The output is empty exactly for the inputs without a digit, the
    empty string among them. *)
Theorem formatPhoneNumber_empty s :
  formatPhoneNumber s = "" <-> remove_non_digits s = "".
Proof.
  destruct (decide (String.length (remove_non_digits s) = 10%nat))
    as [Hlen | Hlen].
  - ten_digits_of s Hlen.
    rewrite (formatPhoneNumber_ten s _ _ _ _ _ _ _ _ _ _ Hclean), Hclean.
    split; discriminate.
  - by rewrite formatPhoneNumber_other.
Qed.

Lemma mobileRegex_test_spec val :
  mobileRegex_test val = true <->
  String.length val = 10%nat /\ all_digits val = true.
Proof.
  unfold mobileRegex_test. rewrite andb_true_iff, Nat.eqb_eq. done.
Qed.

(** X16.  For a mobile number the form accepts ([/^\d{10}$/]), formatting
    can be undone: removing the non-digits of [formatPhoneNumber(mobile)]
    gives [mobile] back.  The formatted number itself has 12 characters and
    is no longer accepted as a mobile number. *)
Theorem formatPhoneNumber_round_trip mobile :
  mobileRegex_test mobile = true ->
  remove_non_digits (formatPhoneNumber mobile) = mobile /\
  String.length (formatPhoneNumber mobile) = 12%nat /\
  mobileRegex_test (formatPhoneNumber mobile) = false.
Proof.
  intros [Hlen Hdig]%mobileRegex_test_spec.
  pose proof (remove_non_digits_id mobile Hdig) as Hid.
  assert (Hlen' : String.length (remove_non_digits mobile) = 10%nat)
    by by rewrite Hid.
  destruct (formatPhoneNumber_ten_digits mobile Hlen') as [H12 _].
  split; [| split; [exact H12 |]].
  - rewrite <- Hid at 2. apply formatPhoneNumber_keeps_digits.
  - unfold mobileRegex_test. by rewrite H12.
Qed.

Lemma formatPhoneNumber_round_trip_witness :
  remove_non_digits (formatPhoneNumber "5551234567") = "5551234567" /\
  String.length (formatPhoneNumber "5551234567") = 12%nat /\
  mobileRegex_test (formatPhoneNumber "5551234567") = false.
Proof.
  apply (formatPhoneNumber_round_trip "5551234567"). reflexivity.
Defined.
